(** * Provider validation of oauth2-proxy: [pkg/validation/providers.go]

    A shallow embedding of the provider-validation pipeline
    ([validateProviders], [validateProvider], [validateGoogleConfig],
    [validateEntraConfig], [validateGovLoginConfig]) and the properties of
    it that the specification states.

    Go strings are [string]; [[]string] is [list string]; the registry
    [map[string]struct{}] is a [gset string]; the calls into package [os]
    are the primitives of a small reader/writer monad [IO] over a [World]
    (what the filesystem and the environment answer) that logs every call
    it makes. *)

From Stdlib Require Import Lia.
From stdpp Require Import base strings list gmap.

Set Default Proof Using "Type".

(** ** Package [options]: the configuration records, as far as the
       validators read them *)

(** [provider.AuthenticationConfig]; [Method] is the only field read in
    [providers.go]. *)
Record AuthenticationOptions : Type := {
  Method : string
}.

(** [provider.GoogleConfig] *)
Record GoogleOptions : Type := {
  Groups : list string;
  AdminEmail : string;
  ServiceAccountJSON : string;
  UseApplicationDefaultCredentials : bool
}.

(** [provider.MicrosoftEntraIDConfig] *)
Record MicrosoftEntraIDOptions : Type := {
  FederatedTokenAuth : bool
}.

(** [options.Provider]; the Go field [Type] is [Type_] here. *)
Record Provider : Type := {
  ID : string;
  ClientID : string;
  Type_ : string;
  AuthenticationConfig : AuthenticationOptions;
  GoogleConfig : GoogleOptions;
  MicrosoftEntraIDConfig : MicrosoftEntraIDOptions
}.

(** [options.Options] *)
Record Options : Type := {
  Providers : list Provider;
  SkipProviderButton : bool
}.

(** ** Package [os]: the three calls the validators make *)

(** What the outside answers: whether [os.Stat] and [os.ReadFile] return a
    non-nil error for a path, and the value [os.Getenv] returns for a name
    (the empty string when the variable is unset). *)
Record World : Type := {
  stat_err : string -> bool;
  env_value : string -> string;
  readfile_err : string -> bool
}.

Inductive Event : Type :=
| EvStat (path : string)
| EvGetenv (name : string)
| EvReadFile (path : string).

(** A computation that may consult the world and logs the calls it makes,
    oldest first. *)
Definition IO (A : Type) : Type := World -> A * list Event.

Definition ret {A : Type} (a : A) : IO A := fun _ => (a, []).

Definition bind {A B : Type} (m : IO A) (k : A -> IO B) : IO B :=
  fun w =>
    let '(a, t1) := m w in
    let '(b, t2) := k a w in
    (b, t1 ++ t2).

Notation "x <- m ; k" := (bind m (fun x => k))
  (at level 20, m at level 100, k at level 200, only parsing).
Notation "' pat <- m ; k" := (bind m (fun x => match x with pat => k end))
  (at level 20, pat pattern, m at level 100, k at level 200, only parsing).

Definition os_Stat (path : string) : IO bool :=
  fun w => (stat_err w path, [EvStat path]).

Definition os_Getenv (name : string) : IO string :=
  fun w => (env_value w name, [EvGetenv name]).

Definition os_ReadFile (path : string) : IO bool :=
  fun w => (readfile_err w path, [EvReadFile path]).

(** The value a computation returns, and the calls it made. *)
Definition result {A : Type} (m : IO A) (w : World) : A := (m w).1.
Definition calls {A : Type} (m : IO A) (w : World) : list Event := (m w).2.

(** ** [validateGoogleConfig] *)

Definition validateGoogleConfig (provider : Provider) : IO (list string) :=
  let msgs : list string := [] in
  let hasGoogleGroups := Nat.leb 1 (length (Groups (GoogleConfig provider))) in
  let hasAdminEmail := negb (String.eqb (AdminEmail (GoogleConfig provider)) "") in
  let hasSAJSON := negb (String.eqb (ServiceAccountJSON (GoogleConfig provider)) "") in
  let useADC := UseApplicationDefaultCredentials (GoogleConfig provider) in
  if negb hasGoogleGroups && negb hasAdminEmail && negb hasSAJSON && negb useADC
  then ret msgs
  else
    let msgs :=
      if negb hasGoogleGroups
      then msgs ++ ["missing setting: google-group"]
      else msgs in
    let msgs :=
      if negb hasAdminEmail
      then msgs ++ ["missing setting: google-admin-email"]
      else msgs in
    err <- os_Stat (ServiceAccountJSON (GoogleConfig provider));
    let msgs :=
      if negb useADC then
        if negb hasSAJSON
        then msgs ++ ["missing setting: google-service-account-json or google-use-application-default-credentials"]
        else if err
        then msgs ++ ["Google credentials file not found: "
                        +:+ ServiceAccountJSON (GoogleConfig provider)]
        else msgs
      else if hasSAJSON
      then msgs ++ ["invalid setting: can't use both google-service-account-json and google-use-application-default-credentials"]
      else msgs in
    ret msgs.

(** ** [validateEntraConfig] *)

Definition validateEntraConfig (provider : Provider) : IO (list string) :=
  let msgs : list string := [] in
  if FederatedTokenAuth (MicrosoftEntraIDConfig provider) then
    federatedTokenPath <- os_Getenv "AZURE_FEDERATED_TOKEN_FILE";
    if String.eqb federatedTokenPath "" then
      let msgs := msgs ++ ["entra federated token authentication is enabled, but AZURE_FEDERATED_TOKEN_FILE variable is not set, check your workload identity configuration."] in
      ret msgs
    else
      err <- os_ReadFile federatedTokenPath;
      let msgs :=
        if err
        then msgs ++ ["could not read entra federated token file"]
        else msgs in
      ret msgs
  else ret msgs.

(** ** Vocabulary of the specification

    The messages, by name, and the views of a validation pass that the
    properties below are stated with. *)

Definition noProviderMsg : string :=
  "at least one provider has to be defined".
Definition skipButtonMsg : string :=
  "SkipProviderButton and multiple providers are mutually exclusive".
Definition emptyIDMsg : string :=
  "provider has empty id: ids are required for all providers".
Definition duplicateIDMsg (id : string) : string :=
  "multiple providers found with id " +:+ id +:+ ": provider ids must be unique".
Definition clientIDMsg : string :=
  "provider missing setting: client-id".
Definition googleGroupMsg : string :=
  "missing setting: google-group".
Definition googleAdminEmailMsg : string :=
  "missing setting: google-admin-email".
Definition googleCredentialsMsg : string :=
  "missing setting: google-service-account-json or google-use-application-default-credentials".
Definition googleFileNotFoundMsg (path : string) : string :=
  "Google credentials file not found: " +:+ path.
Definition googleBothCredentialsMsg : string :=
  "invalid setting: can't use both google-service-account-json and google-use-application-default-credentials".
Definition entraEnvMsg : string :=
  "entra federated token authentication is enabled, but AZURE_FEDERATED_TOKEN_FILE variable is not set, check your workload identity configuration.".
Definition entraReadMsg : string :=
  "could not read entra federated token file".
Definition govLoginMsg : string :=
  "login.gov configuration not using private key jwt".

(** How often a message occurs in a message list. *)
Definition occurrences (m : string) (msgs : list string) : nat :=
  length (filter (fun x => x = m) msgs).


(** The messages the per-type validators can produce. *)
Definition typeMsgShape (m : string) : Prop :=
  m ∈ [googleGroupMsg; googleAdminEmailMsg; googleCredentialsMsg;
       googleBothCredentialsMsg; entraEnvMsg; entraReadMsg; govLoginMsg]
  ∨ ∃ path, m = googleFileNotFoundMsg path.

(** The two list-level checks of [validateProviders]. *)
Definition listMsgs (o : Options) : list string :=
  (if Nat.eqb (length (Providers o)) 0 then [noProviderMsg] else [])
  ++ (if SkipProviderButton o && Nat.ltb 1 (length (Providers o))
      then [skipButtonMsg] else []).

(** The registry when the loop reaches the provider at index [i]: the ids
    of the providers before it. *)
Definition registryAt (providers : list Provider) (i : nat) : gset string :=
  list_to_set (ID <$> take i providers).

Section Validation.

(** [options.PrivateKeyJWT]: the constant is declared in package [options];
    the validators only compare with it. *)
Variable PrivateKeyJWT : string.

(** [validateAuthenticationConfig] is defined in another file of package
    [validation]; [validateProvider] calls it on the provider's
    [AuthenticationConfig] and appends what it returns. *)
Variable validateAuthenticationConfig : AuthenticationOptions -> IO (list string).

(** ** [validateGovLoginConfig] *)

Definition validateGovLoginConfig (provider : Provider) : list string :=
  let msgs : list string := [] in
  let msgs :=
    if String.eqb (Type_ provider) "login.gov"
       && negb (String.eqb (Method (AuthenticationConfig provider)) PrivateKeyJWT)
    then msgs ++ ["login.gov configuration not using private key jwt"]
    else msgs in
  msgs.

(** ** [validateProvider]

    The registry is a Go map, shared with the caller: the function returns
    it with the messages. *)
Definition validateProvider (provider : Provider) (providerIDs : gset string)
  : IO (list string * gset string) :=
  let msgs : list string := [] in
  let msgs :=
    if String.eqb (ID provider) ""
    then msgs ++ ["provider has empty id: ids are required for all providers"]
    else msgs in
  let msgs :=
    if bool_decide (ID provider ∈ providerIDs)
    then msgs ++ ["multiple providers found with id " +:+ ID provider
                    +:+ ": provider ids must be unique"]
    else msgs in
  let providerIDs := {[ ID provider ]} ∪ providerIDs in
  let msgs :=
    if String.eqb (ClientID provider) ""
    then msgs ++ ["provider missing setting: client-id"]
    else msgs in
  authMsgs <- validateAuthenticationConfig (AuthenticationConfig provider);
  let msgs := msgs ++ authMsgs in
  msgs <-
    (if String.eqb (Type_ provider) "google"
     then googleMsgs <- validateGoogleConfig provider; ret (msgs ++ googleMsgs)
     else ret msgs);
  msgs <-
    (if String.eqb (Type_ provider) "entra-id"
     then entraMsgs <- validateEntraConfig provider; ret (msgs ++ entraMsgs)
     else ret msgs);
  let msgs :=
    if String.eqb (Type_ provider) "login.gov"
    then msgs ++ validateGovLoginConfig provider
    else msgs in
  ret (msgs, providerIDs).

(** ** [validateProviders]

    The variables of the function's frame: the object behind the pointer
    [o], the message slice and the registry. *)
Record Frame : Type := {
  f_o : Options;
  f_msgs : list string;
  f_providerIDs : gset string
}.

(** One iteration of [for _, provider := range o.Providers]. *)
Definition rangeBody (provider : Provider) (fr : Frame) : IO Frame :=
  '(provMsgs, providerIDs) <- validateProvider provider (f_providerIDs fr);
  ret {| f_o := f_o fr;
         f_msgs := f_msgs fr ++ provMsgs;
         f_providerIDs := providerIDs |}.

Fixpoint rangeProviders (providers : list Provider) (fr : Frame) : IO Frame :=
  match providers with
  | [] => ret fr
  | provider :: rest => fr' <- rangeBody provider fr; rangeProviders rest fr'
  end.

(** The function up to its [return]: the frame it ends with. *)
Definition validateProviders_frame (o : Options) : IO Frame :=
  let msgs : list string := [] in
  let msgs :=
    if Nat.eqb (length (Providers o)) 0
    then msgs ++ ["at least one provider has to be defined"]
    else msgs in
  let msgs :=
    if SkipProviderButton o && Nat.ltb 1 (length (Providers o))
    then msgs ++ ["SkipProviderButton and multiple providers are mutually exclusive"]
    else msgs in
  let providerIDs : gset string := ∅ in
  rangeProviders (Providers o)
    {| f_o := o; f_msgs := msgs; f_providerIDs := providerIDs |}.

Definition validateProviders (o : Options) : IO (list string) :=
  fr <- validateProviders_frame o;
  ret (f_msgs fr).

(** The id and client-id checks of [validateProvider]. *)
Definition structuralMsgs (provider : Provider) (providerIDs : gset string)
  : list string :=
  (if String.eqb (ID provider) "" then [emptyIDMsg] else [])
  ++ (if bool_decide (ID provider ∈ providerIDs)
      then [duplicateIDMsg (ID provider)] else [])
  ++ (if String.eqb (ClientID provider) "" then [clientIDMsg] else []).

(** The dispatch on [provider.Type] at the end of [validateProvider]. *)
Definition typeMsgs (provider : Provider) (w : World) : list string :=
  (if String.eqb (Type_ provider) "google"
   then result (validateGoogleConfig provider) w else [])
  ++ (if String.eqb (Type_ provider) "entra-id"
      then result (validateEntraConfig provider) w else [])
  ++ (if String.eqb (Type_ provider) "login.gov"
      then validateGovLoginConfig provider else []).

(** What each iteration of the loop appends, in order: the messages of
    [validateProvider] for that provider against the registry of the ids of
    the providers before it. *)
Definition providerMsgs (o : Options) (w : World) : list (list string) :=
  imap (fun i provider =>
          (result (validateProvider provider (registryAt (Providers o) i)) w).1)
       (Providers o).

(** The calls into [os] each iteration makes, in order. *)
Definition providerCalls (o : Options) (w : World) : list (list Event) :=
  imap (fun i provider =>
          calls (validateProvider provider (registryAt (Providers o) i)) w)
       (Providers o).

End Validation.

(** Modelled from the spec: [validateAuthenticationConfig], whose body is in
    a file of package [validation] that is not among the sources. Section
    4.3: given a provider, only when its type is the government-identity
    tag is the method required to be private-key-JWT, any other method for
    that type produces a message (of the shape of the one of section 4.6);
    for every other type nothing is emitted. *)
Definition validateAuthenticationConfig_spec (PrivateKeyJWT : string)
  (provider : Provider) : list string :=
  if String.eqb (Type_ provider) "login.gov"
     && negb (String.eqb (Method (AuthenticationConfig provider)) PrivateKeyJWT)
  then [govLoginMsg]
  else [].


(** ** Sample configurations *)

Definition noGoogle : GoogleOptions :=
  {| Groups := []; AdminEmail := ""; ServiceAccountJSON := "";
     UseApplicationDefaultCredentials := false |}.

Definition noEntra : MicrosoftEntraIDOptions :=
  {| FederatedTokenAuth := false |}.

Definition mkProvider (id type clientID method : string)
  (g : GoogleOptions) (e : MicrosoftEntraIDOptions) : Provider :=
  {| ID := id; ClientID := clientID; Type_ := type;
     AuthenticationConfig := {| Method := method |};
     GoogleConfig := g; MicrosoftEntraIDConfig := e |}.

(** A world without files and without environment. *)
Definition bareWorld : World :=
  {| stat_err := fun _ => true;
     env_value := fun _ => "";
     readfile_err := fun _ => true |}.

(** A world where the federated token variable names a file that cannot be
    read. *)
Definition tokenWorld : World :=
  {| stat_err := fun _ => true;
     env_value := fun name =>
       if String.eqb name "AZURE_FEDERATED_TOKEN_FILE"
       then "/var/run/secrets/azure/tokens/azure-identity-token" else "";
     readfile_err := fun _ => true |}.

(** An authentication-method validator without complaints. *)
Definition quietAuth : AuthenticationOptions -> IO (list string) :=
  fun _ => ret [].

(** The scenario of section 8 of the specification. *)
Definition scenario : Options :=
  {| Providers :=
       [mkProvider "a" "google" "x" "client_secret"
          {| Groups := []; AdminEmail := "e@x.com"; ServiceAccountJSON := "";
             UseApplicationDefaultCredentials := false |}
          noEntra];
     SkipProviderButton := false |}.

(** A google provider with a credentials path and nothing else. *)
Definition googlePathOnly : Provider :=
  mkProvider "a" "google" "x" "client_secret"
    {| Groups := []; AdminEmail := "";
       ServiceAccountJSON := "/etc/oauth2-proxy/sa.json";
       UseApplicationDefaultCredentials := false |}
    noEntra.

(** A google provider with a group and nothing else. *)
Definition googleGroupsOnly : Provider :=
  mkProvider "a" "google" "x" "client_secret"
    {| Groups := ["admins"]; AdminEmail := ""; ServiceAccountJSON := "";
       UseApplicationDefaultCredentials := false |}
    noEntra.

(** An entra-id provider with and without federated token authentication. *)
Definition entraFederated : Provider :=
  mkProvider "e" "entra-id" "x" "client_secret" noGoogle
    {| FederatedTokenAuth := true |}.

Definition entraPlain : Provider :=
  mkProvider "e" "entra-id" "x" "client_secret" noGoogle noEntra.

(** A login.gov provider with the given method. *)
Definition govProvider (method : string) : Provider :=
  mkProvider "g" "login.gov" "x" method noGoogle noEntra.

(** A plain provider of a type without type-specific rules. *)
Definition oidcProvider (id method : string) : Provider :=
  mkProvider id "oidc" "x" method noGoogle noEntra.

(** Three providers, the first two with the same id. *)
Definition twoSameIDs : Options :=
  {| Providers := [oidcProvider "a" "client_secret";
                   oidcProvider "a" "client_secret";
                   oidcProvider "b" "client_secret"];
     SkipProviderButton := true |}.

(** Two providers without id. *)
Definition twoEmptyIDs : Options :=
  {| Providers := [oidcProvider "" "client_secret";
                   oidcProvider "" "client_secret"];
     SkipProviderButton := false |}.

(** No provider at all. *)
Definition noProviders : Options :=
  {| Providers := []; SkipProviderButton := true |}.

(** One provider, with the provider button skipped. *)
Definition oneProviderSkip : Options :=
  {| Providers := [oidcProvider "a" "client_secret"];
     SkipProviderButton := true |}.

(** A world where every file is there and the federated token variable is
    set. *)
Definition kindWorld : World :=
  {| stat_err := fun _ => false;
     env_value := fun name =>
       if String.eqb name "AZURE_FEDERATED_TOKEN_FILE"
       then "/var/run/secrets/azure/tokens/azure-identity-token" else "";
     readfile_err := fun _ => false |}.

(** A google provider with every setting but the default-credentials flag. *)
Definition googleComplete : Provider :=
  mkProvider "g" "google" "x" "client_secret"
    {| Groups := ["admins"]; AdminEmail := "admin@example.com";
       ServiceAccountJSON := "/etc/oauth2-proxy/sa.json";
       UseApplicationDefaultCredentials := false |}
    noEntra.

(** A google provider on application default credentials, with a path set
    as well. *)
Definition googleADCAndPath : Provider :=
  mkProvider "g" "google" "x" "client_secret"
    {| Groups := ["admins"]; AdminEmail := "admin@example.com";
       ServiceAccountJSON := "/etc/oauth2-proxy/sa.json";
       UseApplicationDefaultCredentials := true |}
    noEntra.

(** Two providers with different ids. *)
Definition distinctIDs : Options :=
  {| Providers := [oidcProvider "a" "client_secret";
                   oidcProvider "b" "client_secret"];
     SkipProviderButton := false |}.

(** A provider of each type with type-specific rules, and one without. *)
Definition oneOfEach : Options :=
  {| Providers := [googleComplete; entraFederated;
                   govProvider "private_key_jwt";
                   oidcProvider "o" "client_secret"];
     SkipProviderButton := false |}.

(** Two providers, the first without client id. *)
Definition noClientID : Options :=
  {| Providers := [mkProvider "a" "oidc" "" "client_secret" noGoogle noEntra;
                   oidcProvider "b" "client_secret"];
     SkipProviderButton := false |}.

(** * Properties *)

(** ** The monad *)

Lemma result_ret {A : Type} (a : A) (w : World) : result (ret a) w = a.
Proof. reflexivity. Qed.

Lemma calls_ret {A : Type} (a : A) (w : World) : calls (ret a) w = [].
Proof. reflexivity. Qed.

Lemma result_bind {A B : Type} (m : IO A) (k : A -> IO B) (w : World) :
  result (bind m k) w = result (k (result m w)) w.
Proof.
  unfold result, bind. destruct (m w) as [a t1]; simpl.
  destruct (k a w); reflexivity.
Qed.

Lemma calls_bind {A B : Type} (m : IO A) (k : A -> IO B) (w : World) :
  calls (bind m k) w = calls m w ++ calls (k (result m w)) w.
Proof.
  unfold result, calls, bind. destruct (m w) as [a t1]; simpl.
  destruct (k a w); reflexivity.
Qed.

Lemma result_if {A : Type} (b : bool) (m1 m2 : IO A) (w : World) :
  result (if b then m1 else m2) w = if b then result m1 w else result m2 w.
Proof. destruct b; reflexivity. Qed.

(** ** Strings and messages *)

Lemma eqb_empty_false (s : string) : s ≠ "" -> String.eqb s "" = false.
Proof. intros H. apply String.eqb_neq. exact H. Qed.

Lemma append_cons (c : Ascii.ascii) (s t : string) :
  String c s +:+ t = String c (s +:+ t).
Proof. reflexivity. Qed.

Lemma length_append (s t : string) :
  String.length (s +:+ t) = String.length s + String.length t.
Proof.
  induction s as [|c s IH]; [reflexivity|].
  rewrite append_cons. simpl. by rewrite IH.
Qed.

Lemma append_cancel_r (t a b : string) : a +:+ t = b +:+ t -> a = b.
Proof.
  revert b. induction a as [|c a IH]; intros [|d b] H.
  - reflexivity.
  - apply (f_equal String.length) in H.
    rewrite !length_append in H. simpl in H. lia.
  - apply (f_equal String.length) in H.
    rewrite !length_append in H. simpl in H. lia.
  - rewrite !append_cons in H. injection H as -> H. f_equal. by apply IH.
Qed.

Lemma duplicateIDMsg_inj (s t : string) :
  duplicateIDMsg s = duplicateIDMsg t -> s = t.
Proof.
  unfold duplicateIDMsg. intros H.
  apply (inj (String.append _)) in H.
  by apply append_cancel_r in H.
Qed.

Lemma occurrences_app (m : string) (l1 l2 : list string) :
  occurrences m (l1 ++ l2) = occurrences m l1 + occurrences m l2.
Proof. unfold occurrences. by rewrite filter_app, length_app. Qed.

Lemma occurrences_absent (m : string) (l : list string) :
  m ∉ l -> occurrences m l = 0.
Proof.
  unfold occurrences. induction l as [|x l IH]; intros H; [reflexivity|].
  apply not_elem_of_cons in H as [Hx Hl].
  rewrite filter_cons_False by congruence. by apply IH.
Qed.

Lemma occurrences_singleton (m x : string) :
  occurrences m [x] = if bool_decide (x = m) then 1 else 0.
Proof.
  unfold occurrences. case_bool_decide.
  - by rewrite filter_cons_True.
  - by rewrite filter_cons_False.
Qed.

(** ** The per-type validators *)

Ltac run_io :=
  unfold result, calls, bind, ret, os_Stat, os_Getenv, os_ReadFile; simpl.

Ltac union_eq :=
  apply set_eq; intros ?; rewrite ?elem_of_union; tauto.

Ltac elem_here :=
  repeat first [apply list_elem_of_here | apply list_elem_of_further].

Ltac shape_cases H :=
  repeat (apply elem_of_cons in H as [-> | H]);
  [ try (left; elem_here; fail); try (right; eexists; reflexivity) ..
  | by apply elem_of_nil in H ].

Lemma validateGoogleConfig_shape (p : Provider) (w : World) (m : string) :
  m ∈ result (validateGoogleConfig p) w -> typeMsgShape m.
Proof.
  unfold validateGoogleConfig.
  destruct (Groups (GoogleConfig p)) as [|g gs];
    destruct (String.eqb (AdminEmail (GoogleConfig p)) "");
    destruct (String.eqb (ServiceAccountJSON (GoogleConfig p)) "");
    destruct (UseApplicationDefaultCredentials (GoogleConfig p));
    run_io;
    try destruct (stat_err w (ServiceAccountJSON (GoogleConfig p)));
    simpl; intros H; shape_cases H.
Qed.

Lemma validateEntraConfig_shape (p : Provider) (w : World) (m : string) :
  m ∈ result (validateEntraConfig p) w -> typeMsgShape m.
Proof.
  unfold validateEntraConfig.
  destruct (FederatedTokenAuth (MicrosoftEntraIDConfig p)); run_io;
    [|intros H; by apply elem_of_nil in H].
  destruct (String.eqb (env_value w "AZURE_FEDERATED_TOKEN_FILE") "");
    simpl; [intros H; shape_cases H|].
  destruct (readfile_err w (env_value w "AZURE_FEDERATED_TOKEN_FILE"));
    simpl; intros H; shape_cases H.
Qed.

(** C4: a google provider without admin email, credentials path and
    default-credentials flag gets no message from [validateGoogleConfig] when
    it has no group either, and exactly the missing-admin-email and the
    missing-credentials messages (so no missing-group message) when it has
    a group. *)
Theorem C4_google_unconfigured_or_groups_only (p : Provider) (w : World) :
  AdminEmail (GoogleConfig p) = "" ->
  ServiceAccountJSON (GoogleConfig p) = "" ->
  UseApplicationDefaultCredentials (GoogleConfig p) = false ->
  result (validateGoogleConfig p) w
  = match Groups (GoogleConfig p) with
    | [] => []
    | _ :: _ => [googleAdminEmailMsg; googleCredentialsMsg]
    end
  ∧ googleGroupMsg ∉ result (validateGoogleConfig p) w.
Proof.
  intros Hadmin Hpath Hadc.
  assert (result (validateGoogleConfig p) w
          = match Groups (GoogleConfig p) with
            | [] => []
            | _ :: _ => [googleAdminEmailMsg; googleCredentialsMsg]
            end) as Hres.
  { unfold validateGoogleConfig. rewrite Hadmin, Hpath, Hadc.
    destruct (Groups (GoogleConfig p)); reflexivity. }
  split; [exact Hres|].
  rewrite Hres. destruct (Groups (GoogleConfig p)).
  - apply not_elem_of_nil.
  - intros H. repeat (apply elem_of_cons in H as [H | H]); try discriminate H.
    by apply elem_of_nil in H.
Qed.

Lemma C4_witness :
  result (validateGoogleConfig (mkProvider "a" "google" "x" "client_secret" noGoogle noEntra)) bareWorld = []
  ∧ result (validateGoogleConfig googleGroupsOnly) bareWorld
    = [googleAdminEmailMsg; googleCredentialsMsg].
Proof.
  split.
  - apply (C4_google_unconfigured_or_groups_only
             (mkProvider "a" "google" "x" "client_secret" noGoogle noEntra)
             bareWorld); reflexivity.
  - apply (C4_google_unconfigured_or_groups_only googleGroupsOnly bareWorld);
      reflexivity.
Defined.

(** C2 (as amended): for a google provider whose credentials path is set and
    for which [os.Stat] fails, [validateGoogleConfig] returns the
    missing-group message when there is no group, then the
    missing-admin-email message when there is no admin email, then exactly
    one credentials message: the file-not-found message naming the path
    when application default credentials are off, and the
    both-credentials message (not the file-not-found one) when they are
    on. *)
Theorem C2_google_credentials_file_missing (p : Provider) (w : World) :
  ServiceAccountJSON (GoogleConfig p) ≠ "" ->
  stat_err w (ServiceAccountJSON (GoogleConfig p)) = true ->
  result (validateGoogleConfig p) w
  = match Groups (GoogleConfig p) with
    | [] => [googleGroupMsg]
    | _ :: _ => []
    end
    ++ (if String.eqb (AdminEmail (GoogleConfig p)) ""
        then [googleAdminEmailMsg] else [])
    ++ [if UseApplicationDefaultCredentials (GoogleConfig p)
        then googleBothCredentialsMsg
        else googleFileNotFoundMsg (ServiceAccountJSON (GoogleConfig p))].
Proof.
  intros Hpath%eqb_empty_false Hstat.
  unfold validateGoogleConfig. rewrite Hpath.
  destruct (Groups (GoogleConfig p)) as [|g gs];
    destruct (String.eqb (AdminEmail (GoogleConfig p)) "");
    destruct (UseApplicationDefaultCredentials (GoogleConfig p));
    run_io; rewrite ?Hstat; reflexivity.
Qed.

Lemma C2_witness :
  result (validateGoogleConfig googlePathOnly) bareWorld
  = [googleGroupMsg; googleAdminEmailMsg;
     googleFileNotFoundMsg "/etc/oauth2-proxy/sa.json"].
Proof.
  apply (C2_google_credentials_file_missing googlePathOnly bareWorld).
  - discriminate.
  - reflexivity.
Defined.

Lemma C2_counterexample :
  ServiceAccountJSON (GoogleConfig googlePathOnly) ≠ ""
  ∧ stat_err bareWorld (ServiceAccountJSON (GoogleConfig googlePathOnly)) = true
  ∧ UseApplicationDefaultCredentials (GoogleConfig googlePathOnly) = false
  ∧ result (validateGoogleConfig googlePathOnly) bareWorld
    ≠ [googleFileNotFoundMsg (ServiceAccountJSON (GoogleConfig googlePathOnly))].
Proof.
  split; [discriminate|]. split; [reflexivity|]. split; [reflexivity|].
  vm_compute. discriminate.
Qed.

(** C5: with federated token authentication on and
    AZURE_FEDERATED_TOKEN_FILE unset or empty, [validateEntraConfig] returns
    exactly the workload-identity message and its only call is the
    [os.Getenv] (no [os.ReadFile]); with the variable set and the read
    failing it returns the could-not-read message; with the flag off it
    returns nothing and makes no call; in every case what it returns is one
    of these three message lists, whatever the read did. *)
Theorem C5_entra_federated_token (p : Provider) (w : World) :
  (FederatedTokenAuth (MicrosoftEntraIDConfig p) = true ->
   env_value w "AZURE_FEDERATED_TOKEN_FILE" = "" ->
   result (validateEntraConfig p) w = [entraEnvMsg]
   ∧ calls (validateEntraConfig p) w = [EvGetenv "AZURE_FEDERATED_TOKEN_FILE"])
  ∧ (FederatedTokenAuth (MicrosoftEntraIDConfig p) = true ->
     env_value w "AZURE_FEDERATED_TOKEN_FILE" ≠ "" ->
     readfile_err w (env_value w "AZURE_FEDERATED_TOKEN_FILE") = true ->
     result (validateEntraConfig p) w = [entraReadMsg])
  ∧ (FederatedTokenAuth (MicrosoftEntraIDConfig p) = false ->
     result (validateEntraConfig p) w = []
     ∧ calls (validateEntraConfig p) w = [])
  ∧ result (validateEntraConfig p) w ∈ [[]; [entraEnvMsg]; [entraReadMsg]].
Proof.
  unfold validateEntraConfig. split; [|split; [|split]].
  - intros -> Henv. run_io. by rewrite Henv.
  - intros -> Henv%eqb_empty_false Hread. run_io. by rewrite Henv, Hread.
  - by intros ->.
  - destruct (FederatedTokenAuth (MicrosoftEntraIDConfig p)); run_io;
      [|elem_here].
    destruct (String.eqb (env_value w "AZURE_FEDERATED_TOKEN_FILE") "");
      simpl; [elem_here|].
    destruct (readfile_err w (env_value w "AZURE_FEDERATED_TOKEN_FILE"));
      simpl; elem_here.
Qed.

Lemma C5_witness :
  (result (validateEntraConfig entraFederated) bareWorld = [entraEnvMsg]
   ∧ calls (validateEntraConfig entraFederated) bareWorld
     = [EvGetenv "AZURE_FEDERATED_TOKEN_FILE"])
  ∧ result (validateEntraConfig entraFederated) tokenWorld = [entraReadMsg]
  ∧ (result (validateEntraConfig entraPlain) tokenWorld = []
     ∧ calls (validateEntraConfig entraPlain) tokenWorld = []).
Proof.
  split; [|split].
  - apply (C5_entra_federated_token entraFederated bareWorld); reflexivity.
  - apply (C5_entra_federated_token entraFederated tokenWorld);
      [reflexivity | discriminate | reflexivity].
  - apply (C5_entra_federated_token entraPlain tokenWorld); reflexivity.
Defined.

(** ** The provider validator and the aggregator *)

Section ProviderProperties.

Variable PrivateKeyJWT : string.
Variable validateAuthenticationConfig : AuthenticationOptions -> IO (list string).

Local Abbreviation validateProvider' :=
  (validateProvider PrivateKeyJWT validateAuthenticationConfig).
Local Abbreviation rangeProviders' :=
  (rangeProviders PrivateKeyJWT validateAuthenticationConfig).

Lemma validateGovLoginConfig_shape (p : Provider) (m : string) :
  m ∈ validateGovLoginConfig PrivateKeyJWT p -> typeMsgShape m.
Proof.
  unfold validateGovLoginConfig.
  destruct (String.eqb (Type_ p) "login.gov"
            && negb (String.eqb (Method (AuthenticationConfig p)) PrivateKeyJWT));
    simpl; intros H; shape_cases H.
Qed.

Lemma typeMsgs_shape (p : Provider) (w : World) (m : string) :
  m ∈ typeMsgs PrivateKeyJWT p w -> typeMsgShape m.
Proof.
  unfold typeMsgs. rewrite !elem_of_app.
  destruct (String.eqb (Type_ p) "google"),
           (String.eqb (Type_ p) "entra-id"),
           (String.eqb (Type_ p) "login.gov");
    intros [H | [H | H]];
    eauto using validateGoogleConfig_shape, validateEntraConfig_shape,
                validateGovLoginConfig_shape;
    by apply elem_of_nil in H.
Qed.

Lemma validateProvider_result (p : Provider) (ids : gset string) (w : World) :
  result (validateProvider' p ids) w
  = (structuralMsgs p ids
       ++ result (validateAuthenticationConfig (AuthenticationConfig p)) w
       ++ typeMsgs PrivateKeyJWT p w,
     {[ ID p ]} ∪ ids).
Proof.
  unfold validateProvider, structuralMsgs, typeMsgs.
  rewrite result_bind, result_bind, result_if, result_bind, result_ret.
  rewrite result_bind, result_if, result_bind, !result_ret.
  destruct (String.eqb (ID p) ""), (bool_decide (ID p ∈ ids)),
           (String.eqb (ClientID p) ""), (String.eqb (Type_ p) "google"),
           (String.eqb (Type_ p) "entra-id"),
           (String.eqb (Type_ p) "login.gov");
    simpl; rewrite ?app_nil_r, <- ?app_assoc; reflexivity.
Qed.

Lemma rangeProviders_cons (p : Provider) (rest : list Provider) (fr : Frame)
  (w : World) :
  result (rangeProviders' (p :: rest) fr) w
  = result (rangeProviders' rest
              {| f_o := f_o fr;
                 f_msgs := f_msgs fr
                           ++ (result (validateProvider' p (f_providerIDs fr)) w).1;
                 f_providerIDs := {[ ID p ]} ∪ f_providerIDs fr |}) w.
Proof.
  simpl. rewrite result_bind. f_equal.
  unfold rangeBody. rewrite result_bind, validateProvider_result.
  reflexivity.
Qed.

Lemma rangeProviders_calls_cons (p : Provider) (rest : list Provider)
  (fr : Frame) (w : World) :
  calls (rangeProviders' (p :: rest) fr) w
  = calls (validateProvider' p (f_providerIDs fr)) w
    ++ calls (rangeProviders' rest
                {| f_o := f_o fr;
                   f_msgs := f_msgs fr
                             ++ (result (validateProvider' p (f_providerIDs fr)) w).1;
                   f_providerIDs := {[ ID p ]} ∪ f_providerIDs fr |}) w.
Proof.
  simpl. rewrite calls_bind. unfold rangeBody at 1.
  rewrite calls_bind. unfold rangeBody.
  rewrite result_bind, validateProvider_result. simpl.
  rewrite calls_ret, app_nil_r. reflexivity.
Qed.

Lemma registryAt_0 (providers : list Provider) : registryAt providers 0 = ∅.
Proof. reflexivity. Qed.

Lemma registryAt_S (p : Provider) (rest : list Provider) (i : nat) :
  registryAt (p :: rest) (S i) = {[ ID p ]} ∪ registryAt rest i.
Proof. reflexivity. Qed.

Lemma rangeProviders_result (providers : list Provider) (fr : Frame)
  (w : World) :
  result (rangeProviders' providers fr) w
  = {| f_o := f_o fr;
       f_msgs :=
         f_msgs fr
         ++ concat (imap (fun i p =>
                            (result (validateProvider' p
                               (registryAt providers i ∪ f_providerIDs fr)) w).1)
                         providers);
       f_providerIDs := list_to_set (ID <$> providers) ∪ f_providerIDs fr |}.
Proof.
  revert fr. induction providers as [|p rest IH]; intros fr.
  - destruct fr as [o msgs ids]. simpl. rewrite result_ret, app_nil_r.
    f_equal. by rewrite (left_id_L ∅ (∪)).
  - rewrite rangeProviders_cons, IH. simpl. f_equal.
    + rewrite <- app_assoc. f_equal.
      rewrite registryAt_0, (left_id_L ∅ (∪)). f_equal. f_equal.
      apply imap_ext. intros i q _. simpl. rewrite registryAt_S.
      do 3 f_equal. union_eq.
    + rewrite ?list_to_set_cons. union_eq.
Qed.

Lemma rangeProviders_calls (providers : list Provider) (fr : Frame)
  (w : World) :
  calls (rangeProviders' providers fr) w
  = concat (imap (fun i p =>
                    calls (validateProvider' p
                             (registryAt providers i ∪ f_providerIDs fr)) w)
                 providers).
Proof.
  revert fr. induction providers as [|p rest IH]; intros fr.
  - reflexivity.
  - rewrite rangeProviders_calls_cons, IH. simpl.
    rewrite registryAt_0, (left_id_L ∅ (∪)). f_equal. f_equal.
    apply imap_ext. intros i q _. simpl. rewrite registryAt_S.
    do 2 f_equal. union_eq.
Qed.

Lemma validateProviders_frame_result (o : Options) (w : World) :
  result (validateProviders_frame PrivateKeyJWT validateAuthenticationConfig o) w
  = {| f_o := o;
       f_msgs := listMsgs o
                 ++ concat (providerMsgs PrivateKeyJWT validateAuthenticationConfig o w);
       f_providerIDs := list_to_set (ID <$> Providers o) |}.
Proof.
  unfold validateProviders_frame. rewrite rangeProviders_result. simpl.
  f_equal.
  - f_equal.
    + unfold listMsgs.
      destruct (Nat.eqb (length (Providers o)) 0),
               (SkipProviderButton o && Nat.ltb 1 (length (Providers o)));
        reflexivity.
    + f_equal. apply imap_ext. intros i p _. simpl.
      by rewrite (right_id_L ∅ (∪)).
  - by rewrite (right_id_L ∅ (∪)).
Qed.

Lemma validateProviders_result (o : Options) (w : World) :
  result (validateProviders PrivateKeyJWT validateAuthenticationConfig o) w
  = listMsgs o
    ++ concat (providerMsgs PrivateKeyJWT validateAuthenticationConfig o w).
Proof.
  unfold validateProviders.
  rewrite result_bind, result_ret, validateProviders_frame_result.
  reflexivity.
Qed.

Lemma validateProviders_calls (o : Options) (w : World) :
  calls (validateProviders PrivateKeyJWT validateAuthenticationConfig o) w
  = concat (providerCalls PrivateKeyJWT validateAuthenticationConfig o w).
Proof.
  unfold validateProviders, validateProviders_frame.
  rewrite calls_bind, calls_ret, app_nil_r, rangeProviders_calls.
  simpl. f_equal. apply imap_ext. intros i p _. simpl.
  by rewrite (right_id_L ∅ (∪)).
Qed.

Lemma elem_of_concat (m : string) (ls : list (list string)) :
  m ∈ concat ls -> ∃ l, l ∈ ls ∧ m ∈ l.
Proof.
  induction ls as [|l ls IH]; simpl.
  - intros H. by apply elem_of_nil in H.
  - rewrite elem_of_app. intros [H | H].
    + exists l. split; [apply list_elem_of_here | exact H].
    + destruct (IH H) as (l' & Hl' & Hm). exists l'.
      split; [by apply list_elem_of_further | exact Hm].
Qed.

Lemma elem_of_concat_lookup (m : string) (ls : list (list string)) (i : nat)
  (l : list string) :
  ls !! i = Some l -> m ∈ l -> m ∈ concat ls.
Proof.
  revert i. induction ls as [|l' ls IH]; intros [|i] Hi Hm;
    simpl in *; try discriminate; rewrite elem_of_app.
  - injection Hi as ->. by left.
  - right. by eapply IH.
Qed.

(** Where a message of [validateProvider] can come from. *)
Lemma validateProvider_msg_cases (p : Provider) (ids : gset string)
  (w : World) (m : string) :
  m ∈ (result (validateProvider' p ids) w).1 ->
  m = emptyIDMsg
  ∨ (m = duplicateIDMsg (ID p) ∧ ID p ∈ ids)
  ∨ m = clientIDMsg
  ∨ m ∈ result (validateAuthenticationConfig (AuthenticationConfig p)) w
  ∨ typeMsgShape m.
Proof.
  rewrite validateProvider_result. simpl. unfold structuralMsgs.
  rewrite !elem_of_app.
  intros [[H | [H | H]] | [H | H]].
  - destruct (String.eqb (ID p) ""); [|by apply elem_of_nil in H].
    apply list_elem_of_singleton in H. by left.
  - case_bool_decide; [|by apply elem_of_nil in H].
    apply list_elem_of_singleton in H. right; left. by split.
  - destruct (String.eqb (ClientID p) ""); [|by apply elem_of_nil in H].
    apply list_elem_of_singleton in H. by right; right; left.
  - by right; right; right; left.
  - right; right; right; right. by eapply typeMsgs_shape.
Qed.

Lemma providerMsgs_lookup (o : Options) (w : World) (i : nat) (p : Provider) :
  Providers o !! i = Some p ->
  providerMsgs PrivateKeyJWT validateAuthenticationConfig o w !! i
  = Some (result (validateProvider' p (registryAt (Providers o) i)) w).1.
Proof.
  intros H. unfold providerMsgs. by rewrite list_lookup_imap, H.
Qed.

Lemma providerMsgs_elem (o : Options) (w : World) (l : list string) :
  l ∈ providerMsgs PrivateKeyJWT validateAuthenticationConfig o w ->
  ∃ i p, Providers o !! i = Some p
         ∧ l = (result (validateProvider' p (registryAt (Providers o) i)) w).1.
Proof.
  unfold providerMsgs. intros H.
  apply elem_of_lookup_imap_1 in H as (i & p & -> & Hp). by exists i, p.
Qed.

Lemma registryAt_elem (providers : list Provider) (i : nat) (s : string) :
  s ∈ registryAt providers i
  ↔ ∃ j q, j < i ∧ providers !! j = Some q ∧ ID q = s.
Proof.
  unfold registryAt. rewrite elem_of_list_to_set, list_elem_of_fmap.
  split.
  - intros (q & -> & Hq). apply elem_of_take in Hq as (j & Hj & Hlt).
    by exists j, q.
  - intros (j & q & Hlt & Hj & <-). exists q. split; [reflexivity|].
    apply elem_of_take. by exists j.
Qed.

End ProviderProperties.

(** ** Messages that cannot be confused *)

Lemma typeMsgShape_not_skip (m : string) : typeMsgShape m -> m ≠ skipButtonMsg.
Proof.
  intros [H | [path ->]].
  - repeat (apply elem_of_cons in H as [-> | H]); try discriminate.
    by apply elem_of_nil in H.
  - intros H. cbv in H. discriminate H.
Qed.

Lemma typeMsgShape_not_duplicate (m s : string) :
  typeMsgShape m -> m ≠ duplicateIDMsg s.
Proof.
  intros [H | [path ->]].
  - repeat (apply elem_of_cons in H as [-> | H]);
      try (intros Heq; cbv in Heq; discriminate Heq).
    by apply elem_of_nil in H.
  - intros H. cbv in H. discriminate H.
Qed.

Lemma emptyIDMsg_not_duplicate (s : string) : emptyIDMsg ≠ duplicateIDMsg s.
Proof. intros H. cbv in H. discriminate H. Qed.

Lemma clientIDMsg_not_duplicate (s : string) : clientIDMsg ≠ duplicateIDMsg s.
Proof. intros H. cbv in H. discriminate H. Qed.

Lemma noProviderMsg_not_duplicate (s : string) :
  noProviderMsg ≠ duplicateIDMsg s.
Proof. intros H. cbv in H. discriminate H. Qed.

Lemma skipButtonMsg_not_duplicate (s : string) :
  skipButtonMsg ≠ duplicateIDMsg s.
Proof. intros H. cbv in H. discriminate H. Qed.

Lemma duplicateIDMsg_not_skip (s : string) : duplicateIDMsg s ≠ skipButtonMsg.
Proof. intros H. cbv in H. discriminate H. Qed.

(** ** The claims about the provider validator and the aggregator *)

Section Claims.

Variable PrivateKeyJWT : string.
Variable validateAuthenticationConfig : AuthenticationOptions -> IO (list string).

Local Abbreviation validateProvider' :=
  (validateProvider PrivateKeyJWT validateAuthenticationConfig).
Local Abbreviation validateProviders' :=
  (validateProviders PrivateKeyJWT validateAuthenticationConfig).
Local Abbreviation providerMsgs' :=
  (providerMsgs PrivateKeyJWT validateAuthenticationConfig).
Local Abbreviation providerCalls' :=
  (providerCalls PrivateKeyJWT validateAuthenticationConfig).

(** C6: for a login.gov provider, [validateGovLoginConfig] emits the
    not-using-private-key-jwt message if and only if the authentication
    method is not [PrivateKeyJWT]: with that method it returns nothing, with
    any other exactly that message. *)
Theorem C6_govlogin_private_key_jwt (p : Provider) :
  Type_ p = "login.gov" ->
  (govLoginMsg ∈ validateGovLoginConfig PrivateKeyJWT p
   ↔ Method (AuthenticationConfig p) ≠ PrivateKeyJWT)
  ∧ (Method (AuthenticationConfig p) = PrivateKeyJWT ->
     validateGovLoginConfig PrivateKeyJWT p = [])
  ∧ (Method (AuthenticationConfig p) ≠ PrivateKeyJWT ->
     validateGovLoginConfig PrivateKeyJWT p = [govLoginMsg]).
Proof.
  intros Htype. unfold validateGovLoginConfig. rewrite Htype. simpl.
  destruct (String.eqb_spec (Method (AuthenticationConfig p)) PrivateKeyJWT)
    as [Heq | Hne]; simpl.
  - split; [|split]; [|done|done].
    split; [intros H; by apply elem_of_nil in H | done].
  - split; [|split]; [|done|done].
    split; [done | intros _; apply list_elem_of_here].
Qed.

(** C8: when the provider list is empty, [validateProviders] returns the
    no-provider message (and only it), no iteration of the loop runs and no
    call into [os] is made. *)
Theorem C8_no_provider (o : Options) (w : World) :
  Providers o = [] ->
  noProviderMsg ∈ result (validateProviders' o) w
  ∧ result (validateProviders' o) w = [noProviderMsg]
  ∧ providerMsgs' o w = []
  ∧ calls (validateProviders' o) w = [].
Proof.
  intros Hnil.
  assert (providerMsgs' o w = []) as Hmsgs.
  { unfold providerMsgs. by rewrite Hnil. }
  assert (result (validateProviders' o) w = [noProviderMsg]) as Hres.
  { rewrite validateProviders_result, Hmsgs. unfold listMsgs.
    rewrite Hnil. simpl. by rewrite andb_false_r. }
  split; [|split; [|split]]; try done.
  - rewrite Hres. apply list_elem_of_here.
  - rewrite validateProviders_calls. unfold providerCalls. by rewrite Hnil.
Qed.

(** C9: with [SkipProviderButton] set, more than one provider puts the
    mutual-exclusivity message into the result of [validateProviders],
    whatever the providers are; with at most one provider the message is
    not in the result (the authentication-method validator, whose body is
    elsewhere, is taken not to emit that very message). *)
Theorem C9_skip_button_and_several_providers (o : Options) (w : World) :
  SkipProviderButton o = true ->
  (1 < length (Providers o) ->
   skipButtonMsg ∈ result (validateProviders' o) w)
  ∧ (length (Providers o) <= 1 ->
     (∀ ac, skipButtonMsg ∉ result (validateAuthenticationConfig ac) w) ->
     skipButtonMsg ∉ result (validateProviders' o) w).
Proof.
  intros Hskip. rewrite validateProviders_result. unfold listMsgs.
  rewrite Hskip. simpl. split.
  - intros Hlen. apply elem_of_app. left.
    destruct (Nat.ltb_spec 1 (length (Providers o))) as [_ | Hle]; [|lia].
    destruct (Nat.eqb (length (Providers o)) 0); simpl; elem_here.
  - intros Hlen Hauth.
    destruct (Nat.ltb_spec 1 (length (Providers o))) as [Hlt | _]; [lia|].
    rewrite app_nil_r, elem_of_app. intros [H | H].
    + destruct (Nat.eqb (length (Providers o)) 0);
        [|by apply elem_of_nil in H].
      apply list_elem_of_singleton in H. discriminate H.
    + apply elem_of_concat in H as (l & Hl & Hm).
      apply providerMsgs_elem in Hl as (i & p & Hp & ->).
      apply validateProvider_msg_cases
        in Hm as [Hm | [[Hm _] | [Hm | [Hm | Hm]]]].
      * discriminate Hm.
      * by apply (duplicateIDMsg_not_skip (ID p)).
      * discriminate Hm.
      * by apply (Hauth (AuthenticationConfig p)).
      * by apply (typeMsgShape_not_skip skipButtonMsg).
Qed.

(** C7: [validateProviders] leaves the object behind [o] as it was and
    returns the accumulated messages: the list-level messages followed, for
    every provider of [o] in list order, by the messages of
    [validateProvider] for that provider against the ids of the providers
    before it. Every provider has its iteration, whatever the earlier ones
    reported, all their calls into [os] are made in the same order, and the
    result is always a message list. *)
Theorem C7_aggregator_frame (o : Options) (w : World) :
  let fr :=
    result (validateProviders_frame PrivateKeyJWT validateAuthenticationConfig o) w
  in
  f_o fr = o
  ∧ result (validateProviders' o) w = f_msgs fr
  ∧ f_msgs fr = listMsgs o ++ concat (providerMsgs' o w)
  ∧ length (providerMsgs' o w) = length (Providers o)
  ∧ (∀ i p, Providers o !! i = Some p ->
       providerMsgs' o w !! i
       = Some (result (validateProvider' p (registryAt (Providers o) i)) w).1)
  ∧ calls (validateProviders' o) w = concat (providerCalls' o w)
  ∧ f_providerIDs fr = list_to_set (ID <$> Providers o).
Proof.
  simpl. rewrite validateProviders_frame_result, validateProviders_result.
  simpl. repeat split.
  - unfold providerMsgs. apply length_imap.
  - intros i p. apply providerMsgs_lookup.
  - apply validateProviders_calls.
Qed.

End Claims.

(** ** Identifiers and the registry *)

Section Identifiers.

Variable PrivateKeyJWT : string.
Variable validateAuthenticationConfig : AuthenticationOptions -> IO (list string).

Local Abbreviation validateProvider' :=
  (validateProvider PrivateKeyJWT validateAuthenticationConfig).
Local Abbreviation rangeProviders' :=
  (rangeProviders PrivateKeyJWT validateAuthenticationConfig).
Local Abbreviation validateProviders' :=
  (validateProviders PrivateKeyJWT validateAuthenticationConfig).
Local Abbreviation providerMsgs' :=
  (providerMsgs PrivateKeyJWT validateAuthenticationConfig).

Lemma structuralMsgs_duplicate_count (p : Provider) (ids : gset string)
  (s : string) :
  occurrences (duplicateIDMsg s) (structuralMsgs p ids)
  = if bool_decide (ID p = s ∧ s ∈ ids) then 1 else 0.
Proof.
  unfold structuralMsgs. rewrite !occurrences_app.
  assert (occurrences (duplicateIDMsg s)
            (if String.eqb (ID p) "" then [emptyIDMsg] else []) = 0) as ->.
  { destruct (String.eqb (ID p) ""); [|reflexivity].
    apply occurrences_absent. intros H%list_elem_of_singleton.
    symmetry in H. by apply emptyIDMsg_not_duplicate in H. }
  assert (occurrences (duplicateIDMsg s)
            (if String.eqb (ClientID p) "" then [clientIDMsg] else []) = 0) as ->.
  { destruct (String.eqb (ClientID p) ""); [|reflexivity].
    apply occurrences_absent. intros H%list_elem_of_singleton.
    symmetry in H. by apply clientIDMsg_not_duplicate in H. }
  rewrite Nat.add_0_l, Nat.add_0_r.
  destruct (decide (ID p ∈ ids)) as [Hin | Hout].
  - rewrite (bool_decide_eq_true_2 _ Hin), occurrences_singleton.
    repeat case_bool_decide; try reflexivity.
    + exfalso. match goal with H : ¬ (_ ∧ _) |- _ => apply H end.
      match goal with H : duplicateIDMsg _ = _ |- _ =>
        apply duplicateIDMsg_inj in H end.
      split; congruence.
    + exfalso. match goal with H : _ ≠ _ |- _ => apply H end.
      f_equal. tauto.
  - rewrite (bool_decide_eq_false_2 _ Hout).
    case_bool_decide as H; [|reflexivity].
    destruct H as [<- H]. contradiction.
Qed.

Lemma validateProvider_duplicate_count (p : Provider) (ids : gset string)
  (w : World) (s : string) :
  duplicateIDMsg s
    ∉ result (validateAuthenticationConfig (AuthenticationConfig p)) w ->
  occurrences (duplicateIDMsg s) (result (validateProvider' p ids) w).1
  = if bool_decide (ID p = s ∧ s ∈ ids) then 1 else 0.
Proof.
  intros Hauth. rewrite validateProvider_result. simpl.
  rewrite !occurrences_app, structuralMsgs_duplicate_count.
  rewrite (occurrences_absent _ _ Hauth).
  rewrite (occurrences_absent _ (typeMsgs _ _ _)).
  - lia.
  - intros H%typeMsgs_shape. by apply (typeMsgShape_not_duplicate _ s) in H.
Qed.

Lemma rangeProviders_duplicate_count (providers : list Provider) (fr : Frame)
  (w : World) (s : string) :
  (∀ ac, duplicateIDMsg s ∉ result (validateAuthenticationConfig ac) w) ->
  occurrences (duplicateIDMsg s)
    (f_msgs (result (rangeProviders' providers fr) w))
  = occurrences (duplicateIDMsg s) (f_msgs fr)
    + (if bool_decide (s ∈ f_providerIDs fr)
       then length (filter (fun p => ID p = s) providers)
       else length (filter (fun p => ID p = s) providers) - 1).
Proof.
  intros Hauth. revert fr.
  induction providers as [|p rest IH]; intros fr.
  - simpl. rewrite result_ret. destruct (bool_decide _); simpl; lia.
  - rewrite rangeProviders_cons, IH. cbn [f_msgs f_providerIDs].
    rewrite occurrences_app, validateProvider_duplicate_count by apply Hauth.
    destruct (decide (ID p = s)) as [Heq | Hne].
    + rewrite filter_cons_True by exact Heq. simpl.
      rewrite (bool_decide_eq_true_2 (s ∈ {[ID p]} ∪ f_providerIDs fr)).
      2:{ apply elem_of_union. left. by apply elem_of_singleton. }
      destruct (decide (s ∈ f_providerIDs fr)) as [Hin | Hout].
      * rewrite (bool_decide_eq_true_2 _ Hin).
        rewrite (bool_decide_eq_true_2 (ID p = s ∧ _)) by done. lia.
      * rewrite (bool_decide_eq_false_2 _ Hout).
        rewrite (bool_decide_eq_false_2 (ID p = s ∧ _)) by tauto. lia.
    + rewrite filter_cons_False by exact Hne.
      rewrite (bool_decide_eq_false_2 (ID p = s ∧ _)) by tauto.
      destruct (decide (s ∈ f_providerIDs fr)) as [Hin | Hout].
      * rewrite (bool_decide_eq_true_2 _ Hin).
        rewrite (bool_decide_eq_true_2 (s ∈ {[ID p]} ∪ f_providerIDs fr)).
        2:{ apply elem_of_union. by right. }
        lia.
      * rewrite (bool_decide_eq_false_2 _ Hout).
        rewrite (bool_decide_eq_false_2 (s ∈ {[ID p]} ∪ f_providerIDs fr)).
        2:{ rewrite elem_of_union, elem_of_singleton. intros [? | ?]; congruence. }
        lia.
Qed.


End Identifiers.

(** ** The claims at sample configurations *)

Example scenario_run :
  result (validateProviders "private_key_jwt" quietAuth scenario) bareWorld
  = [googleGroupMsg; googleCredentialsMsg].
Proof. vm_compute. reflexivity. Qed.


(** The rule of [validateAuthenticationConfig_spec] needs the provider:
    no function of the [AuthenticationConfig] alone returns its messages for
    every provider. *)
Lemma authentication_rule_needs_the_provider :
  ¬ ∃ (PrivateKeyJWT : string)
      (validateAuthenticationConfig : AuthenticationOptions -> IO (list string))
      (w : World),
      ∀ p, result (validateAuthenticationConfig (AuthenticationConfig p)) w
           = validateAuthenticationConfig_spec PrivateKeyJWT p.
Proof.
  intros (pk & f & w & H).
  assert (∃ method, String.eqb method pk = false) as [method Hne].
  { exists ("x" +:+ pk). apply String.eqb_neq. intros Heq.
    apply (f_equal String.length) in Heq.
    rewrite length_append in Heq. simpl in Heq. lia. }
  pose proof (H (govProvider method)) as Hgov.
  pose proof (H (oidcProvider "g" method)) as Hoidc.
  unfold validateAuthenticationConfig_spec in Hgov, Hoidc.
  simpl in Hgov, Hoidc. rewrite Hne in Hgov.
  simpl in Hgov. rewrite Hgov in Hoidc. discriminate Hoidc.
Qed.

Lemma C6_witness :
  validateGovLoginConfig "private_key_jwt" (govProvider "client_secret")
  = [govLoginMsg]
  ∧ validateGovLoginConfig "private_key_jwt" (govProvider "private_key_jwt")
    = [].
Proof.
  split.
  - apply (C6_govlogin_private_key_jwt "private_key_jwt"
             (govProvider "client_secret")); [reflexivity | discriminate].
  - apply (C6_govlogin_private_key_jwt "private_key_jwt"
             (govProvider "private_key_jwt")); reflexivity.
Defined.

Lemma C7_witness :
  f_o (result (validateProviders_frame "private_key_jwt" quietAuth twoSameIDs)
         bareWorld) = twoSameIDs
  ∧ providerMsgs "private_key_jwt" quietAuth twoSameIDs bareWorld !! 1
    = Some (result (validateProvider "private_key_jwt" quietAuth
                      (oidcProvider "a" "client_secret")
                      (registryAt (Providers twoSameIDs) 1)) bareWorld).1.
Proof.
  split.
  - apply (C7_aggregator_frame "private_key_jwt" quietAuth twoSameIDs bareWorld).
  - apply (C7_aggregator_frame "private_key_jwt" quietAuth twoSameIDs bareWorld).
    reflexivity.
Defined.

Lemma C8_witness :
  result (validateProviders "private_key_jwt" quietAuth noProviders) bareWorld
  = [noProviderMsg].
Proof.
  apply (C8_no_provider "private_key_jwt" quietAuth noProviders bareWorld).
  reflexivity.
Defined.

Lemma C9_witness :
  skipButtonMsg
    ∈ result (validateProviders "private_key_jwt" quietAuth twoSameIDs) bareWorld
  ∧ skipButtonMsg
      ∉ result (validateProviders "private_key_jwt" quietAuth oneProviderSkip)
          bareWorld.
Proof.
  split.
  - apply (C9_skip_button_and_several_providers "private_key_jwt" quietAuth
             twoSameIDs bareWorld); [reflexivity | simpl; lia].
  - apply (C9_skip_button_and_several_providers "private_key_jwt" quietAuth
             oneProviderSkip bareWorld); [reflexivity | simpl; lia |].
    intros ac. apply not_elem_of_nil.
Defined.


(** * Further properties of the validators *)

(** ** [validateGoogleConfig] and [validateEntraConfig] *)

Lemma calls_if {A : Type} (b : bool) (m1 m2 : IO A) (w : World) :
  calls (if b then m1 else m2) w = if b then calls m1 w else calls m2 w.
Proof. destruct b; reflexivity. Qed.

Lemma validateGoogleConfig_calls (p : Provider) (w : World) :
  calls (validateGoogleConfig p) w
  = if bool_decide (Groups (GoogleConfig p) = []
                    ∧ AdminEmail (GoogleConfig p) = ""
                    ∧ ServiceAccountJSON (GoogleConfig p) = ""
                    ∧ UseApplicationDefaultCredentials (GoogleConfig p) = false)
    then []
    else [EvStat (ServiceAccountJSON (GoogleConfig p))].
Proof.
  case_bool_decide as H.
  - destruct H as (Hg & Ha & Hp & Hadc).
    unfold validateGoogleConfig. by rewrite Hg, Ha, Hp, Hadc.
  - unfold validateGoogleConfig.
    destruct (Groups (GoogleConfig p)) as [|g gs];
      destruct (String.eqb_spec (AdminEmail (GoogleConfig p)) "");
      destruct (String.eqb_spec (ServiceAccountJSON (GoogleConfig p)) "");
      destruct (UseApplicationDefaultCredentials (GoogleConfig p));
      try reflexivity.
    exfalso. by apply H.
Qed.

Lemma validateEntraConfig_calls (p : Provider) (w : World) :
  calls (validateEntraConfig p) w
  = if FederatedTokenAuth (MicrosoftEntraIDConfig p) then
      if String.eqb (env_value w "AZURE_FEDERATED_TOKEN_FILE") ""
      then [EvGetenv "AZURE_FEDERATED_TOKEN_FILE"]
      else [EvGetenv "AZURE_FEDERATED_TOKEN_FILE";
            EvReadFile (env_value w "AZURE_FEDERATED_TOKEN_FILE")]
    else [].
Proof.
  unfold validateEntraConfig.
  destruct (FederatedTokenAuth (MicrosoftEntraIDConfig p)); [|reflexivity].
  run_io.
  destruct (String.eqb (env_value w "AZURE_FEDERATED_TOKEN_FILE") "");
    reflexivity.
Qed.

(** X1: [validateGoogleConfig] returns no message exactly when the google
    settings are all unset, or there is a group, an admin email and one
    credential strategy that works: application default credentials
    without a path, or a path for which [os.Stat] succeeds without the
    flag. *)
Theorem X1_google_accepts_iff (p : Provider) (w : World) :
  result (validateGoogleConfig p) w = []
  ↔ (Groups (GoogleConfig p) = []
     ∧ AdminEmail (GoogleConfig p) = ""
     ∧ ServiceAccountJSON (GoogleConfig p) = ""
     ∧ UseApplicationDefaultCredentials (GoogleConfig p) = false)
    ∨ (Groups (GoogleConfig p) ≠ []
       ∧ AdminEmail (GoogleConfig p) ≠ ""
       ∧ if UseApplicationDefaultCredentials (GoogleConfig p)
         then ServiceAccountJSON (GoogleConfig p) = ""
         else ServiceAccountJSON (GoogleConfig p) ≠ ""
              ∧ stat_err w (ServiceAccountJSON (GoogleConfig p)) = false).
Proof.
  unfold validateGoogleConfig.
  destruct (Groups (GoogleConfig p)) as [|g gs];
    destruct (String.eqb_spec (AdminEmail (GoogleConfig p)) "");
    destruct (String.eqb_spec (ServiceAccountJSON (GoogleConfig p)) "");
    destruct (UseApplicationDefaultCredentials (GoogleConfig p));
    run_io;
    try destruct (stat_err w (ServiceAccountJSON (GoogleConfig p)));
    simpl; split;
    first [ intros H; discriminate H
          | intros [(? & ? & ? & ?) | (? & ? & ?)];
            solve [ congruence | intuition congruence ]
          | intros _; solve [ left; done | right; done ] ].
Qed.

(** X2: [validateGoogleConfig] calls [os.Stat] on the configured path once,
    and nothing else of [os], unless the google settings are all unset, when
    it makes no call; the call is made also when application default
    credentials are on or the path is empty. *)
Theorem X2_google_stat_probe (p : Provider) (w : World) :
  (Groups (GoogleConfig p) = []
   ∧ AdminEmail (GoogleConfig p) = ""
   ∧ ServiceAccountJSON (GoogleConfig p) = ""
   ∧ UseApplicationDefaultCredentials (GoogleConfig p) = false ->
   calls (validateGoogleConfig p) w = [])
  ∧ (¬ (Groups (GoogleConfig p) = []
        ∧ AdminEmail (GoogleConfig p) = ""
        ∧ ServiceAccountJSON (GoogleConfig p) = ""
        ∧ UseApplicationDefaultCredentials (GoogleConfig p) = false) ->
     calls (validateGoogleConfig p) w
     = [EvStat (ServiceAccountJSON (GoogleConfig p))]).
Proof.
  rewrite validateGoogleConfig_calls. split; intros H.
  - by rewrite bool_decide_eq_true_2.
  - by rewrite bool_decide_eq_false_2.
Qed.

Lemma X2_witness :
  calls (validateGoogleConfig (oidcProvider "a" "client_secret")) kindWorld = []
  ∧ calls (validateGoogleConfig googleADCAndPath) kindWorld
    = [EvStat "/etc/oauth2-proxy/sa.json"]
  ∧ calls (validateGoogleConfig googleGroupsOnly) kindWorld = [EvStat ""].
Proof.
  split; [|split].
  - destruct (X2_google_stat_probe (oidcProvider "a" "client_secret") kindWorld)
      as [H _].
    apply H. repeat split.
  - destruct (X2_google_stat_probe googleADCAndPath kindWorld) as [_ H].
    apply H. intros (H1 & _). discriminate H1.
  - destruct (X2_google_stat_probe googleGroupsOnly kindWorld) as [_ H].
    apply H. intros (H1 & _). discriminate H1.
Defined.

(** X3: what [validateGoogleConfig] returns depends on the outside only
    through the answer of [os.Stat] for the configured path, and not at all
    when application default credentials are on or the path is empty: the
    answer of the probe is then made but not used. *)
Theorem X3_google_world_dependence (p : Provider) (w1 w2 : World) :
  stat_err w1 (ServiceAccountJSON (GoogleConfig p))
  = stat_err w2 (ServiceAccountJSON (GoogleConfig p))
  ∨ UseApplicationDefaultCredentials (GoogleConfig p) = true
  ∨ ServiceAccountJSON (GoogleConfig p) = "" ->
  result (validateGoogleConfig p) w1 = result (validateGoogleConfig p) w2.
Proof.
  unfold validateGoogleConfig.
  destruct (Groups (GoogleConfig p)) as [|g gs];
    destruct (String.eqb_spec (AdminEmail (GoogleConfig p)) "");
    destruct (String.eqb_spec (ServiceAccountJSON (GoogleConfig p)) "");
    destruct (UseApplicationDefaultCredentials (GoogleConfig p));
    run_io; try reflexivity;
    intros [-> | [H | H]]; first [reflexivity | discriminate H | contradiction].
Qed.

Lemma X3_witness :
  result (validateGoogleConfig googleADCAndPath) bareWorld
  = result (validateGoogleConfig googleADCAndPath) kindWorld.
Proof.
  apply (X3_google_world_dependence googleADCAndPath bareWorld kindWorld).
  right; left. reflexivity.
Defined.

(** X4: [validateEntraConfig] returns no message exactly when federated
    token authentication is off, or AZURE_FEDERATED_TOKEN_FILE is set and
    the file it names can be read. *)
Theorem X4_entra_accepts_iff (p : Provider) (w : World) :
  result (validateEntraConfig p) w = []
  ↔ FederatedTokenAuth (MicrosoftEntraIDConfig p) = false
    ∨ (env_value w "AZURE_FEDERATED_TOKEN_FILE" ≠ ""
       ∧ readfile_err w (env_value w "AZURE_FEDERATED_TOKEN_FILE") = false).
Proof.
  unfold validateEntraConfig.
  destruct (FederatedTokenAuth (MicrosoftEntraIDConfig p)); run_io.
  - destruct (String.eqb_spec (env_value w "AZURE_FEDERATED_TOKEN_FILE") "")
      as [Henv | Henv]; simpl.
    + split; [intros H; discriminate H|].
      intros [H | [H _]]; [discriminate H | contradiction].
    + destruct (readfile_err w (env_value w "AZURE_FEDERATED_TOKEN_FILE"));
        simpl; split.
      * intros H; discriminate H.
      * intros [H | [_ H]]; discriminate H.
      * intros _. right. by split.
      * reflexivity.
  - split; [by left | reflexivity].
Qed.

(** X5: the only file [validateEntraConfig] reads is the one named by
    AZURE_FEDERATED_TOKEN_FILE, and it reads it exactly when federated token
    authentication is on and the variable is not empty; it never calls
    [os.Stat]. *)
Theorem X5_entra_reads_only_token_file (p : Provider) (w : World)
  (path : string) :
  (EvReadFile path ∈ calls (validateEntraConfig p) w
   ↔ FederatedTokenAuth (MicrosoftEntraIDConfig p) = true
     ∧ path = env_value w "AZURE_FEDERATED_TOKEN_FILE"
     ∧ path ≠ "")
  ∧ EvStat path ∉ calls (validateEntraConfig p) w.
Proof.
  rewrite validateEntraConfig_calls.
  destruct (FederatedTokenAuth (MicrosoftEntraIDConfig p)).
  - destruct (String.eqb_spec (env_value w "AZURE_FEDERATED_TOKEN_FILE") "")
      as [Henv | Henv]; split.
    + split.
      * intros H. apply list_elem_of_singleton in H. discriminate H.
      * intros (_ & -> & H). contradiction.
    + intros H. apply list_elem_of_singleton in H. discriminate H.
    + split.
      * intros H. apply elem_of_cons in H as [H | H]; [discriminate H|].
        apply list_elem_of_singleton in H. injection H as ->. done.
      * intros (_ & -> & _). elem_here.
    + intros H. apply elem_of_cons in H as [H | H]; [discriminate H|].
      apply list_elem_of_singleton in H. discriminate H.
  - split.
    + split; [intros H; by apply elem_of_nil in H|].
      intros (H & _). discriminate H.
    + apply not_elem_of_nil.
Qed.

(** ** The dispatch on the provider type *)

Lemma validateGoogleConfig_no_govLoginMsg (p : Provider) (w : World) :
  govLoginMsg ∉ result (validateGoogleConfig p) w.
Proof.
  unfold validateGoogleConfig.
  destruct (Groups (GoogleConfig p)) as [|g gs];
    destruct (String.eqb (AdminEmail (GoogleConfig p)) "");
    destruct (String.eqb (ServiceAccountJSON (GoogleConfig p)) "");
    destruct (UseApplicationDefaultCredentials (GoogleConfig p));
    run_io;
    try destruct (stat_err w (ServiceAccountJSON (GoogleConfig p)));
    simpl; intros H;
    repeat (apply elem_of_cons in H as [H | H]);
    try (cbv in H; discriminate H);
    by apply elem_of_nil in H.
Qed.

Lemma validateEntraConfig_no_govLoginMsg (p : Provider) (w : World) :
  govLoginMsg ∉ result (validateEntraConfig p) w.
Proof.
  unfold validateEntraConfig.
  destruct (FederatedTokenAuth (MicrosoftEntraIDConfig p)); run_io;
    [|apply not_elem_of_nil].
  destruct (String.eqb (env_value w "AZURE_FEDERATED_TOKEN_FILE") "");
    simpl;
    [|destruct (readfile_err w (env_value w "AZURE_FEDERATED_TOKEN_FILE"))];
    simpl; intros H;
    repeat (apply elem_of_cons in H as [H | H]);
    try discriminate H;
    by apply elem_of_nil in H.
Qed.

Section Dispatch.

Variable PrivateKeyJWT : string.
Variable validateAuthenticationConfig : AuthenticationOptions -> IO (list string).

Local Abbreviation validateProvider' :=
  (validateProvider PrivateKeyJWT validateAuthenticationConfig).

Lemma validateProvider_calls (p : Provider) (ids : gset string) (w : World) :
  calls (validateProvider' p ids) w
  = calls (validateAuthenticationConfig (AuthenticationConfig p)) w
    ++ (if String.eqb (Type_ p) "google"
        then calls (validateGoogleConfig p) w else [])
    ++ (if String.eqb (Type_ p) "entra-id"
        then calls (validateEntraConfig p) w else []).
Proof.
  unfold validateProvider.
  rewrite calls_bind, calls_bind, calls_if, calls_bind, !calls_ret.
  rewrite calls_bind, calls_if, calls_bind, !calls_ret.
  destruct (String.eqb (Type_ p) "google"), (String.eqb (Type_ p) "entra-id");
    rewrite ?app_nil_r; reflexivity.
Qed.

(** X6: the type dispatch of [validateProvider] emits the
    not-using-private-key-jwt message exactly for a login.gov provider whose
    method is not [PrivateKeyJWT]; the google and entra-id validators never
    emit it. *)
Theorem X6_govlogin_message_iff (p : Provider) (w : World) :
  govLoginMsg ∈ typeMsgs PrivateKeyJWT p w
  ↔ Type_ p = "login.gov"
    ∧ Method (AuthenticationConfig p) ≠ PrivateKeyJWT.
Proof.
  unfold typeMsgs, validateGovLoginConfig. rewrite !elem_of_app. split.
  - intros [H | [H | H]].
    + destruct (String.eqb (Type_ p) "google");
        [by apply validateGoogleConfig_no_govLoginMsg in H
        |by apply elem_of_nil in H].
    + destruct (String.eqb (Type_ p) "entra-id");
        [by apply validateEntraConfig_no_govLoginMsg in H
        |by apply elem_of_nil in H].
    + destruct (String.eqb_spec (Type_ p) "login.gov") as [Ht | Ht];
        [|by apply elem_of_nil in H].
      simpl in H.
      destruct (String.eqb_spec (Method (AuthenticationConfig p)) PrivateKeyJWT);
        [by apply elem_of_nil in H | done].
  - intros [Ht Hm%String.eqb_neq]. right; right.
    rewrite Ht, Hm. simpl. apply list_elem_of_here.
Qed.

(** X7: for a provider whose type is none of google, entra-id and
    login.gov, [validateProvider] returns the id and client-id messages
    followed by those of the authentication-method validator and nothing
    else, and makes no call into [os] of its own. *)
Theorem X7_other_types_have_no_rules (p : Provider) (ids : gset string)
  (w : World) :
  Type_ p ≠ "google" -> Type_ p ≠ "entra-id" -> Type_ p ≠ "login.gov" ->
  (result (validateProvider' p ids) w).1
  = structuralMsgs p ids
    ++ result (validateAuthenticationConfig (AuthenticationConfig p)) w
  ∧ calls (validateProvider' p ids) w
    = calls (validateAuthenticationConfig (AuthenticationConfig p)) w.
Proof.
  intros Hg%String.eqb_neq He%String.eqb_neq Hl%String.eqb_neq.
  rewrite validateProvider_result, validateProvider_calls.
  unfold typeMsgs. rewrite Hg, He, Hl. simpl.
  by rewrite !app_nil_r.
Qed.

(** X8: the three tests on [provider.Type] in [validateProvider] select at
    most one per-type validator: the type-specific messages are those of
    the google validator for type google, of the entra-id validator for
    type entra-id, of the login.gov validator for type login.gov, and the
    calls into [os] after those of the authentication-method validator are
    those of that one validator. *)
Theorem X8_dispatch_selects_one_validator (p : Provider) (ids : gset string)
  (w : World) :
  typeMsgs PrivateKeyJWT p w
  = (if String.eqb (Type_ p) "google"
     then result (validateGoogleConfig p) w
     else if String.eqb (Type_ p) "entra-id"
     then result (validateEntraConfig p) w
     else if String.eqb (Type_ p) "login.gov"
     then validateGovLoginConfig PrivateKeyJWT p
     else [])
  ∧ calls (validateProvider' p ids) w
    = calls (validateAuthenticationConfig (AuthenticationConfig p)) w
      ++ (if String.eqb (Type_ p) "google"
          then calls (validateGoogleConfig p) w
          else if String.eqb (Type_ p) "entra-id"
          then calls (validateEntraConfig p) w
          else []).
Proof.
  rewrite validateProvider_calls. unfold typeMsgs.
  destruct (String.eqb_spec (Type_ p) "google") as [-> | Hg]; simpl.
  { by rewrite !app_nil_r. }
  destruct (String.eqb_spec (Type_ p) "entra-id") as [-> | He]; simpl.
  { by rewrite !app_nil_r. }
  done.
Qed.

End Dispatch.

Lemma X7_witness :
  (result (validateProvider "private_key_jwt" quietAuth
             (oidcProvider "" "client_secret") ∅) kindWorld).1
  = [emptyIDMsg]
  ∧ calls (validateProvider "private_key_jwt" quietAuth
             (oidcProvider "" "client_secret") ∅) kindWorld
    = [].
Proof.
  destruct (X7_other_types_have_no_rules "private_key_jwt" quietAuth
              (oidcProvider "" "client_secret") ∅ kindWorld)
    as [Hmsgs Hcalls]; try discriminate.
  split.
  - rewrite Hmsgs. vm_compute. reflexivity.
  - rewrite Hcalls. reflexivity.
Defined.

(** ** The whole pass *)

Lemma concat_nil_iff {A : Type} (ls : list (list A)) :
  concat ls = [] ↔ ∀ i l, ls !! i = Some l -> l = [].
Proof.
  induction ls as [|l0 ls IH]; simpl.
  - split; [intros _ i l H; discriminate H | reflexivity].
  - rewrite app_nil, IH. split.
    + intros [H0 Hls] [|i] l H; simpl in H.
      * by injection H as <-.
      * by eapply Hls.
    + intros H. split; [by apply (H 0) | intros i l Hl; by apply (H (S i))].
Qed.

Lemma elem_of_concat_inv {A : Type} (x : A) (ls : list (list A)) :
  x ∈ concat ls -> ∃ i l, ls !! i = Some l ∧ x ∈ l.
Proof.
  induction ls as [|l0 ls IH]; simpl.
  - intros H. by apply elem_of_nil in H.
  - rewrite elem_of_app. intros [H | H].
    + by exists 0, l0.
    + destruct (IH H) as (i & l & Hl & Hx). by exists (S i), l.
Qed.

Lemma fresh_iff_NoDup (providers : list Provider) :
  (∀ i p, providers !! i = Some p -> ID p ∉ registryAt providers i)
  ↔ NoDup (ID <$> providers).
Proof.
  rewrite NoDup_alt. split.
  - intros Hfresh i j s Hi Hj.
    apply list_lookup_fmap_Some in Hi as (p & -> & Hp).
    apply list_lookup_fmap_Some in Hj as (q & Hid & Hq).
    destruct (Nat.lt_trichotomy i j) as [Hlt | [Heq | Hgt]]; [|done|].
    + exfalso. apply (Hfresh j q Hq). apply registryAt_elem.
      by exists i, p.
    + exfalso. apply (Hfresh i p Hp). apply registryAt_elem.
      by exists j, q.
  - intros Hnodup i p Hp Hin.
    apply registryAt_elem in Hin as (j & q & Hlt & Hq & Hid).
    assert (j = i); [|lia].
    apply (Hnodup j i (ID p)).
    + rewrite <- Hid. by apply list_lookup_fmap_Some_2.
    + by apply list_lookup_fmap_Some_2.
Qed.

Lemma structuralMsgs_nil_iff (p : Provider) (ids : gset string) :
  structuralMsgs p ids = []
  ↔ ID p ≠ "" ∧ (ID p ∉ ids) ∧ ClientID p ≠ "".
Proof.
  unfold structuralMsgs.
  destruct (String.eqb_spec (ID p) ""), (String.eqb_spec (ClientID p) "");
    case_bool_decide; simpl; split;
    first [ intros H; discriminate H
          | intros (? & ? & ?); done
          | done ].
Qed.

Lemma listMsgs_nil_iff (o : Options) :
  listMsgs o = []
  ↔ Providers o ≠ []
    ∧ (SkipProviderButton o = true -> length (Providers o) <= 1).
Proof.
  unfold listMsgs.
  destruct (Providers o) as [|p [|q rest]], (SkipProviderButton o); simpl;
    split;
    first [ intros H; discriminate H
          | intros [H1 H2]; first [done | specialize (H2 eq_refl); lia]
          | intros _; split; [done | intros; first [lia | done]] ].
Qed.

Lemma typeMsgShape_not_emptyID (m : string) : typeMsgShape m -> m ≠ emptyIDMsg.
Proof.
  intros [H | [path ->]].
  - repeat (apply elem_of_cons in H as [-> | H]); try discriminate.
    by apply elem_of_nil in H.
  - intros H. cbv in H. discriminate H.
Qed.

Lemma typeMsgShape_not_clientID (m : string) :
  typeMsgShape m -> m ≠ clientIDMsg.
Proof.
  intros [H | [path ->]].
  - repeat (apply elem_of_cons in H as [-> | H]); try discriminate.
    by apply elem_of_nil in H.
  - intros H. cbv in H. discriminate H.
Qed.

Lemma typeMsgShape_not_noProvider (m : string) :
  typeMsgShape m -> m ≠ noProviderMsg.
Proof.
  intros [H | [path ->]].
  - repeat (apply elem_of_cons in H as [-> | H]); try discriminate.
    by apply elem_of_nil in H.
  - intros H. cbv in H. discriminate H.
Qed.

Lemma sum_indicator_filter {A : Type} (P : A -> Prop)
  `{!∀ x, Decision (P x)} (l : list A) :
  sum_list ((fun x => if decide (P x) then 1 else 0) <$> l)
  = length (filter P l).
Proof.
  induction l as [|x l IH]; [reflexivity|].
  rewrite fmap_cons. simpl. rewrite IH.
  destruct (decide (P x)) as [HP | HP].
  - by rewrite filter_cons_True.
  - by rewrite filter_cons_False.
Qed.

Section WholePass.

Variable PrivateKeyJWT : string.
Variable validateAuthenticationConfig : AuthenticationOptions -> IO (list string).

Local Abbreviation validateProvider' :=
  (validateProvider PrivateKeyJWT validateAuthenticationConfig).
Local Abbreviation rangeProviders' :=
  (rangeProviders PrivateKeyJWT validateAuthenticationConfig).
Local Abbreviation validateProviders' :=
  (validateProviders PrivateKeyJWT validateAuthenticationConfig).
Local Abbreviation providerMsgs' :=
  (providerMsgs PrivateKeyJWT validateAuthenticationConfig).
Local Abbreviation providerCalls' :=
  (providerCalls PrivateKeyJWT validateAuthenticationConfig).

Lemma validateProvider_nil_iff (p : Provider) (ids : gset string) (w : World) :
  (result (validateProvider' p ids) w).1 = []
  ↔ ID p ≠ "" ∧ (ID p ∉ ids) ∧ ClientID p ≠ ""
    ∧ result (validateAuthenticationConfig (AuthenticationConfig p)) w = []
    ∧ typeMsgs PrivateKeyJWT p w = [].
Proof.
  rewrite validateProvider_result. simpl.
  rewrite !app_nil, structuralMsgs_nil_iff. tauto.
Qed.

Lemma validateProvider_fresh (p : Provider) (ids : gset string) (w : World) :
  ID p ∉ ids ->
  (result (validateProvider' p ids) w).1
  = (result (validateProvider' p ∅) w).1.
Proof.
  intros Hfresh. rewrite !validateProvider_result. simpl.
  unfold structuralMsgs.
  rewrite (bool_decide_eq_false_2 _ Hfresh).
  by rewrite (bool_decide_eq_false_2 (ID p ∈ ∅)) by apply not_elem_of_empty.
Qed.

Lemma validateProviders_msg_cases (o : Options) (w : World) (m : string) :
  m ∈ result (validateProviders' o) w ->
  m ∈ listMsgs o
  ∨ ∃ i p, Providers o !! i = Some p
           ∧ m ∈ (result (validateProvider' p (registryAt (Providers o) i)) w).1.
Proof.
  rewrite validateProviders_result, elem_of_app. intros [H | H]; [by left|].
  right. apply elem_of_concat_inv in H as (i & l & Hl & Hm).
  unfold providerMsgs in Hl. rewrite list_lookup_imap in Hl.
  destruct (Providers o !! i) as [p|] eqn:Hp; [|discriminate Hl].
  simpl in Hl. injection Hl as <-. by exists i, p.
Qed.

(** X9: [validateProviders] returns no message exactly when there is at
    least one provider, the provider button is not skipped with more than
    one provider, the ids are pairwise different, and every provider has an
    id and a client id and gets no message from the authentication-method
    validator and none from the validator of its type. *)
Theorem X9_configuration_accepted_iff (o : Options) (w : World) :
  result (validateProviders' o) w = []
  ↔ Providers o ≠ []
    ∧ (SkipProviderButton o = true -> length (Providers o) <= 1)
    ∧ NoDup (ID <$> Providers o)
    ∧ ∀ p, p ∈ Providers o ->
        ID p ≠ "" ∧ ClientID p ≠ ""
        ∧ result (validateAuthenticationConfig (AuthenticationConfig p)) w = []
        ∧ typeMsgs PrivateKeyJWT p w = [].
Proof.
  rewrite validateProviders_result, app_nil, listMsgs_nil_iff, concat_nil_iff.
  rewrite <- fresh_iff_NoDup. split.
  - intros [[Hne Hskip] Hall].
    assert (∀ i p, Providers o !! i = Some p ->
              (result (validateProvider' p (registryAt (Providers o) i)) w).1
              = []) as Hnil.
    { intros i p Hp. apply (Hall i).
      by apply providerMsgs_lookup. }
    split; [done|]. split; [done|]. split.
    + intros i p Hp. apply Hnil, validateProvider_nil_iff in Hp. tauto.
    + intros p Hp. apply list_elem_of_lookup in Hp as [i Hp].
      apply Hnil, validateProvider_nil_iff in Hp. tauto.
  - intros (Hne & Hskip & Hfresh & Hall). split; [done|].
    intros i l Hl. unfold providerMsgs in Hl. rewrite list_lookup_imap in Hl.
    destruct (Providers o !! i) as [p|] eqn:Hp; [|discriminate Hl].
    simpl in Hl. injection Hl as <-.
    apply validateProvider_nil_iff.
    destruct (Hall p (list_elem_of_lookup_2 _ _ _ Hp)) as (? & ? & ? & ?).
    pose proof (Hfresh i p Hp). tauto.
Qed.

(** X10: when the ids of the providers are pairwise different, the
    registry plays no part: every provider gets the messages it would get
    alone, against the empty registry, and the result is the list-level
    messages followed by these. *)
Theorem X10_distinct_ids_validate_independently (o : Options) (w : World) :
  NoDup (ID <$> Providers o) ->
  providerMsgs' o w
  = (fun p => (result (validateProvider' p ∅) w).1) <$> Providers o
  ∧ result (validateProviders' o) w
    = listMsgs o
      ++ concat ((fun p => (result (validateProvider' p ∅) w).1)
                   <$> Providers o).
Proof.
  intros Hnodup.
  pose proof (proj2 (fresh_iff_NoDup (Providers o)) Hnodup) as Hfresh.
  assert (providerMsgs' o w
          = (fun p => (result (validateProvider' p ∅) w).1) <$> Providers o)
    as Hmsgs.
  { apply list_eq. intros i. unfold providerMsgs.
    rewrite list_lookup_imap, list_lookup_fmap.
    destruct (Providers o !! i) as [p|] eqn:Hp; [|reflexivity].
    simpl. f_equal. apply validateProvider_fresh. by apply Hfresh. }
  split; [exact Hmsgs|].
  by rewrite validateProviders_result, Hmsgs.
Qed.

Lemma rangeProviders_count (m : string) (c : Provider -> nat) (w : World)
  (providers : list Provider) (fr : Frame) :
  (∀ p ids, occurrences m (result (validateProvider' p ids) w).1 = c p) ->
  occurrences m (f_msgs (result (rangeProviders' providers fr) w))
  = occurrences m (f_msgs fr) + sum_list (c <$> providers).
Proof.
  intros Hstep. revert fr. induction providers as [|p rest IH]; intros fr.
  - simpl. rewrite result_ret. lia.
  - rewrite rangeProviders_cons, IH. cbn [f_msgs].
    rewrite occurrences_app, Hstep, fmap_cons. simpl. lia.
Qed.

Lemma validateProviders_count (m : string) (c : Provider -> nat) (w : World)
  (o : Options) :
  m ≠ noProviderMsg -> m ≠ skipButtonMsg ->
  (∀ p ids, occurrences m (result (validateProvider' p ids) w).1 = c p) ->
  occurrences m (result (validateProviders' o) w)
  = sum_list (c <$> Providers o).
Proof.
  intros Hno Hskip Hstep. unfold validateProviders, validateProviders_frame.
  rewrite result_bind, result_ret, (rangeProviders_count m c) by exact Hstep.
  cbn [f_msgs]. rewrite occurrences_absent; [reflexivity|].
  destruct (Nat.eqb (length (Providers o)) 0),
           (SkipProviderButton o && Nat.ltb 1 (length (Providers o)));
    simpl; intros H;
    repeat (apply elem_of_cons in H as [H | H]);
    try (by apply elem_of_nil in H);
    solve [exact (Hno H) | exact (Hskip H)].
Qed.

(** X11: the empty-id message occurs in the result of [validateProviders]
    once for every provider with the empty id, whatever the type of the
    provider (the authentication-method validator is taken not to emit that
    very message). *)
Theorem X11_empty_id_message_count (o : Options) (w : World) :
  (∀ ac, emptyIDMsg ∉ result (validateAuthenticationConfig ac) w) ->
  occurrences emptyIDMsg (result (validateProviders' o) w)
  = length (filter (fun p => ID p = "") (Providers o)).
Proof.
  intros Hauth.
  rewrite (validateProviders_count emptyIDMsg
             (fun p => if decide (ID p = "") then 1 else 0)).
  - apply sum_indicator_filter.
  - discriminate.
  - discriminate.
  - intros p ids. rewrite validateProvider_result. simpl.
    rewrite !occurrences_app.
    rewrite (occurrences_absent _ _ (Hauth (AuthenticationConfig p))).
    rewrite (occurrences_absent _ (typeMsgs _ _ _)).
    2:{ intros H%typeMsgs_shape. by apply typeMsgShape_not_emptyID in H. }
    unfold structuralMsgs. rewrite !occurrences_app.
    rewrite (occurrences_absent _ (if bool_decide _ then _ else _)).
    2:{ case_bool_decide as Hin; [|apply not_elem_of_nil].
        intros H%list_elem_of_singleton.
        by apply emptyIDMsg_not_duplicate in H. }
    rewrite (occurrences_absent _ (if String.eqb (ClientID p) "" then _ else _)).
    2:{ destruct (String.eqb (ClientID p) ""); [|apply not_elem_of_nil].
        intros H%list_elem_of_singleton. discriminate H. }
    destruct (String.eqb_spec (ID p) ""); destruct (decide (ID p = ""));
      try contradiction; reflexivity.
Qed.

(** X12: the missing-client-id message occurs in the result of
    [validateProviders] once for every provider with the empty client id,
    whatever the type of the provider (the authentication-method validator
    is taken not to emit that very message). *)
Theorem X12_client_id_message_count (o : Options) (w : World) :
  (∀ ac, clientIDMsg ∉ result (validateAuthenticationConfig ac) w) ->
  occurrences clientIDMsg (result (validateProviders' o) w)
  = length (filter (fun p => ClientID p = "") (Providers o)).
Proof.
  intros Hauth.
  rewrite (validateProviders_count clientIDMsg
             (fun p => if decide (ClientID p = "") then 1 else 0)).
  - apply sum_indicator_filter.
  - discriminate.
  - discriminate.
  - intros p ids. rewrite validateProvider_result. simpl.
    rewrite !occurrences_app.
    rewrite (occurrences_absent _ _ (Hauth (AuthenticationConfig p))).
    rewrite (occurrences_absent _ (typeMsgs _ _ _)).
    2:{ intros H%typeMsgs_shape. by apply typeMsgShape_not_clientID in H. }
    unfold structuralMsgs. rewrite !occurrences_app.
    rewrite (occurrences_absent _ (if bool_decide _ then _ else _)).
    2:{ case_bool_decide as Hin; [|apply not_elem_of_nil].
        intros H%list_elem_of_singleton.
        by apply clientIDMsg_not_duplicate in H. }
    rewrite (occurrences_absent _ (if String.eqb (ID p) "" then _ else _)).
    2:{ destruct (String.eqb (ID p) ""); [|apply not_elem_of_nil].
        intros H%list_elem_of_singleton. discriminate H. }
    destruct (String.eqb_spec (ClientID p) "");
      destruct (decide (ClientID p = ""));
      try contradiction; reflexivity.
Qed.

End WholePass.

(** ** Prefixes, list-level messages and the calls into [os] *)

Section Footprint.

Variable PrivateKeyJWT : string.
Variable validateAuthenticationConfig : AuthenticationOptions -> IO (list string).

Local Abbreviation validateProvider' :=
  (validateProvider PrivateKeyJWT validateAuthenticationConfig).
Local Abbreviation validateProviders' :=
  (validateProviders PrivateKeyJWT validateAuthenticationConfig).
Local Abbreviation providerMsgs' :=
  (providerMsgs PrivateKeyJWT validateAuthenticationConfig).

Lemma registryAt_app_l (l1 l2 : list Provider) (i : nat) :
  i <= length l1 -> registryAt (l1 ++ l2) i = registryAt l1 i.
Proof. intros Hi. unfold registryAt. by rewrite take_app_le. Qed.

Lemma registryAt_app_r (l1 l2 : list Provider) (j : nat) :
  registryAt (l1 ++ l2) (length l1 + j)
  = list_to_set (ID <$> l1) ∪ registryAt l2 j.
Proof.
  unfold registryAt.
  by rewrite take_app_add, fmap_app, list_to_set_app_L.
Qed.

Lemma providerMsgs_app (l1 l2 : list Provider) (skip1 skip2 : bool)
  (w : World) :
  providerMsgs' {| Providers := l1 ++ l2; SkipProviderButton := skip1 |} w
  = providerMsgs' {| Providers := l1; SkipProviderButton := skip2 |} w
    ++ imap (fun j p =>
               (result (validateProvider' p
                          (list_to_set (ID <$> l1) ∪ registryAt l2 j)) w).1)
            l2.
Proof.
  unfold providerMsgs. simpl. rewrite imap_app. f_equal.
  - apply imap_ext. intros i p Hp. simpl.
    rewrite registryAt_app_l; [reflexivity|].
    apply lookup_lt_Some in Hp. lia.
  - apply imap_ext. intros j p _. simpl. by rewrite registryAt_app_r.
Qed.

(** X14: the no-provider message is in the result of [validateProviders]
    exactly when the provider list is empty (the authentication-method
    validator is taken not to emit that very message). *)
Theorem X14_no_provider_message_iff (o : Options) (w : World) :
  (∀ ac, noProviderMsg ∉ result (validateAuthenticationConfig ac) w) ->
  noProviderMsg ∈ result (validateProviders' o) w ↔ Providers o = [].
Proof.
  intros Hauth. split.
  - intros H. apply validateProviders_msg_cases in H as [H | (i & p & Hp & H)].
    + unfold listMsgs in H. destruct (Providers o) as [|q rest]; [reflexivity|].
      simpl in H.
      destruct (SkipProviderButton o && _);
        [apply list_elem_of_singleton in H; discriminate H
        |by apply elem_of_nil in H].
    + exfalso.
      apply validateProvider_msg_cases
        in H as [H | [[H _] | [H | [H | H]]]].
      * discriminate H.
      * by apply noProviderMsg_not_duplicate in H.
      * discriminate H.
      * by apply (Hauth (AuthenticationConfig p)).
      * by apply (typeMsgShape_not_noProvider noProviderMsg).
  - intros Hnil. rewrite validateProviders_result. unfold listMsgs.
    rewrite Hnil. simpl. apply list_elem_of_here.
Qed.

(** X15: the mutual-exclusivity message is in the result of
    [validateProviders] exactly when [SkipProviderButton] is set and there
    is more than one provider; without the flag it is absent however many
    providers there are (the authentication-method validator is taken not
    to emit that very message). *)
Theorem X15_skip_button_message_iff (o : Options) (w : World) :
  (∀ ac, skipButtonMsg ∉ result (validateAuthenticationConfig ac) w) ->
  skipButtonMsg ∈ result (validateProviders' o) w
  ↔ SkipProviderButton o = true ∧ 1 < length (Providers o).
Proof.
  intros Hauth. split.
  - intros H. apply validateProviders_msg_cases in H as [H | (i & p & Hp & H)].
    + unfold listMsgs in H. apply elem_of_app in H as [H | H].
      * destruct (Nat.eqb (length (Providers o)) 0);
          [apply list_elem_of_singleton in H; discriminate H
          |by apply elem_of_nil in H].
      * destruct (SkipProviderButton o); simpl in H;
          [|by apply elem_of_nil in H].
        destruct (Nat.ltb_spec 1 (length (Providers o)));
          [done | by apply elem_of_nil in H].
    + exfalso.
      apply validateProvider_msg_cases
        in H as [H | [[H _] | [H | [H | H]]]].
      * discriminate H.
      * symmetry in H. by apply duplicateIDMsg_not_skip in H.
      * discriminate H.
      * by apply (Hauth (AuthenticationConfig p)).
      * by apply (typeMsgShape_not_skip skipButtonMsg).
  - intros [Hskip Hlen]. rewrite validateProviders_result. unfold listMsgs.
    rewrite Hskip. apply elem_of_app. left. apply elem_of_app. right.
    destruct (Nat.ltb_spec 1 (length (Providers o))); [|lia].
    apply list_elem_of_here.
Qed.

(** X16: when the authentication-method validator makes no call into [os],
    every call of [validateProviders] is the [os.Stat] on the credentials
    path of a google provider of the list, or, for a list holding an
    entra-id provider with federated token authentication, the [os.Getenv]
    of AZURE_FEDERATED_TOKEN_FILE or the [os.ReadFile] of the file that
    variable names. *)
Theorem X16_calls_footprint (o : Options) (w : World) (e : Event) :
  (∀ ac, calls (validateAuthenticationConfig ac) w = []) ->
  e ∈ calls (validateProviders' o) w ->
  (∃ p, p ∈ Providers o ∧ Type_ p = "google"
        ∧ e = EvStat (ServiceAccountJSON (GoogleConfig p)))
  ∨ (∃ p, p ∈ Providers o ∧ Type_ p = "entra-id"
          ∧ FederatedTokenAuth (MicrosoftEntraIDConfig p) = true
          ∧ (e = EvGetenv "AZURE_FEDERATED_TOKEN_FILE"
             ∨ e = EvReadFile (env_value w "AZURE_FEDERATED_TOKEN_FILE"))).
Proof.
  intros Hauth. rewrite validateProviders_calls. intros H.
  apply elem_of_concat_inv in H as (i & l & Hl & He).
  unfold providerCalls in Hl. rewrite list_lookup_imap in Hl.
  destruct (Providers o !! i) as [p|] eqn:Hp; [|discriminate Hl].
  simpl in Hl. injection Hl as <-.
  apply list_elem_of_lookup_2 in Hp.
  rewrite validateProvider_calls, Hauth in He. simpl in He.
  apply elem_of_app in He as [He | He].
  - left. exists p.
    destruct (String.eqb_spec (Type_ p) "google") as [Ht | Ht];
      [|by apply elem_of_nil in He].
    rewrite validateGoogleConfig_calls in He.
    case_bool_decide; [by apply elem_of_nil in He|].
    apply list_elem_of_singleton in He. done.
  - right. exists p.
    destruct (String.eqb_spec (Type_ p) "entra-id") as [Ht | Ht];
      [|by apply elem_of_nil in He].
    rewrite validateEntraConfig_calls in He.
    destruct (FederatedTokenAuth (MicrosoftEntraIDConfig p));
      [|by apply elem_of_nil in He].
    split; [done|]. split; [done|]. split; [done|].
    destruct (String.eqb (env_value w "AZURE_FEDERATED_TOKEN_FILE") "").
    + apply list_elem_of_singleton in He. by left.
    + apply elem_of_cons in He as [He | He]; [by left|].
      apply list_elem_of_singleton in He. by right.
Qed.

End Footprint.

(** ** The further properties at sample configurations *)

Lemma X10_witness :
  result (validateProviders "private_key_jwt" quietAuth distinctIDs) bareWorld
  = listMsgs distinctIDs
    ++ concat ((fun p => (result (validateProvider "private_key_jwt" quietAuth
                                    p ∅) bareWorld).1)
                 <$> Providers distinctIDs).
Proof.
  apply (X10_distinct_ids_validate_independently "private_key_jwt" quietAuth
           distinctIDs bareWorld).
  simpl. apply NoDup_cons. split.
  - intros H%list_elem_of_singleton. discriminate H.
  - apply NoDup_singleton.
Defined.

Lemma X11_witness :
  occurrences emptyIDMsg
    (result (validateProviders "private_key_jwt" quietAuth twoEmptyIDs) bareWorld)
  = 2.
Proof.
  apply (X11_empty_id_message_count "private_key_jwt" quietAuth twoEmptyIDs
           bareWorld).
  intros ac. apply not_elem_of_nil.
Defined.

Lemma X12_witness :
  occurrences clientIDMsg
    (result (validateProviders "private_key_jwt" quietAuth noClientID) bareWorld)
  = 1.
Proof.
  apply (X12_client_id_message_count "private_key_jwt" quietAuth noClientID
           bareWorld).
  intros ac. apply not_elem_of_nil.
Defined.

Lemma X14_witness :
  noProviderMsg
    ∈ result (validateProviders "private_key_jwt" quietAuth noProviders) bareWorld.
Proof.
  apply (X14_no_provider_message_iff "private_key_jwt" quietAuth noProviders
           bareWorld).
  - intros ac. apply not_elem_of_nil.
  - reflexivity.
Defined.

Lemma X15_witness :
  skipButtonMsg
    ∈ result (validateProviders "private_key_jwt" quietAuth twoSameIDs) bareWorld.
Proof.
  apply (X15_skip_button_message_iff "private_key_jwt" quietAuth twoSameIDs
           bareWorld).
  - intros ac. apply not_elem_of_nil.
  - split; [reflexivity | simpl; lia].
Defined.

Lemma X16_witness :
  (∃ p, p ∈ Providers oneOfEach ∧ Type_ p = "google"
        ∧ EvStat "/etc/oauth2-proxy/sa.json"
          = EvStat (ServiceAccountJSON (GoogleConfig p)))
  ∨ (∃ p, p ∈ Providers oneOfEach ∧ Type_ p = "entra-id"
          ∧ FederatedTokenAuth (MicrosoftEntraIDConfig p) = true
          ∧ (EvStat "/etc/oauth2-proxy/sa.json"
             = EvGetenv "AZURE_FEDERATED_TOKEN_FILE"
             ∨ EvStat "/etc/oauth2-proxy/sa.json"
               = EvReadFile (env_value kindWorld "AZURE_FEDERATED_TOKEN_FILE"))).
Proof.
  apply (X16_calls_footprint "private_key_jwt" quietAuth oneOfEach kindWorld
           (EvStat "/etc/oauth2-proxy/sa.json")).
  - intros ac. reflexivity.
  - vm_compute. apply list_elem_of_here.
Defined.

(** ** Duplicate-id messages and distinct ids *)

Section DistinctIDs.

Variable PrivateKeyJWT : string.
Variable validateAuthenticationConfig : AuthenticationOptions -> IO (list string).

Local Abbreviation validateProvider' :=
  (validateProvider PrivateKeyJWT validateAuthenticationConfig).
Local Abbreviation validateProviders' :=
  (validateProviders PrivateKeyJWT validateAuthenticationConfig).

(** X17: the result of [validateProviders] is free of duplicate-id messages
    exactly when the ids of the providers are pairwise different (the
    authentication-method validator is taken not to emit a duplicate-id
    message itself). *)
Theorem X17_no_duplicate_message_iff_distinct (o : Options) (w : World) :
  (∀ ac s, duplicateIDMsg s ∉ result (validateAuthenticationConfig ac) w) ->
  (∀ s, duplicateIDMsg s ∉ result (validateProviders' o) w)
  ↔ NoDup (ID <$> Providers o).
Proof.
  intros Hauth. rewrite <- fresh_iff_NoDup. split.
  - intros Hnone i p Hp Hin. apply (Hnone (ID p)).
    rewrite validateProviders_result. apply elem_of_app. right.
    eapply elem_of_concat_lookup; [by apply providerMsgs_lookup|].
    rewrite validateProvider_result. simpl. apply elem_of_app. left.
    unfold structuralMsgs. apply elem_of_app. right. apply elem_of_app. left.
    rewrite (bool_decide_eq_true_2 _ Hin). apply list_elem_of_here.
  - intros Hfresh s H.
    apply validateProviders_msg_cases in H as [H | (i & p & Hp & H)].
    + unfold listMsgs in H.
      destruct (Nat.eqb (length (Providers o)) 0),
               (SkipProviderButton o && Nat.ltb 1 (length (Providers o)));
        simpl in H;
        repeat (apply elem_of_cons in H as [H | H]);
        try (by apply elem_of_nil in H);
        symmetry in H;
        first [ by apply noProviderMsg_not_duplicate in H
              | by apply skipButtonMsg_not_duplicate in H ].
    + apply validateProvider_msg_cases
        in H as [H | [[_ H] | [H | [H | H]]]].
      * symmetry in H. by apply emptyIDMsg_not_duplicate in H.
      * by apply (Hfresh i p Hp).
      * symmetry in H. by apply clientIDMsg_not_duplicate in H.
      * by apply (Hauth (AuthenticationConfig p) s).
      * by apply (typeMsgShape_not_duplicate _ s) in H.
Qed.

End DistinctIDs.

Lemma X17_witness :
  duplicateIDMsg "a"
    ∉ result (validateProviders "private_key_jwt" quietAuth distinctIDs)
        bareWorld.
Proof.
  apply (X17_no_duplicate_message_iff_distinct "private_key_jwt" quietAuth
           distinctIDs bareWorld).
  - intros ac s. apply not_elem_of_nil.
  - simpl. apply NoDup_cons. split.
    + intros H%list_elem_of_singleton. discriminate H.
    + apply NoDup_singleton.
Defined.

(** ** The authentication-method rule of the specification *)



(** ** Empty ids in the loop *)

Section EmptyIDs.

Variable PrivateKeyJWT : string.
Variable validateAuthenticationConfig : AuthenticationOptions -> IO (list string).

Local Abbreviation validateProvider' :=
  (validateProvider PrivateKeyJWT validateAuthenticationConfig).
Local Abbreviation rangeProviders' :=
  (rangeProviders PrivateKeyJWT validateAuthenticationConfig).
Local Abbreviation validateProviders' :=
  (validateProviders PrivateKeyJWT validateAuthenticationConfig).
Local Abbreviation validateProviders_frame' :=
  (validateProviders_frame PrivateKeyJWT validateAuthenticationConfig).

Lemma rangeProviders_app (l1 l2 : list Provider) (fr : Frame) (w : World) :
  result (rangeProviders' (l1 ++ l2) fr) w
  = result (rangeProviders' l2 (result (rangeProviders' l1 fr) w)) w.
Proof.
  revert fr. induction l1 as [|p l1 IH]; intros fr.
  - reflexivity.
  - rewrite <- app_comm_cons, !rangeProviders_cons. apply IH.
Qed.

Lemma rangeProviders_snoc (l : list Provider) (p : Provider) (fr : Frame)
  (w : World) :
  result (rangeProviders' (l ++ [p]) fr) w
  = {| f_o := f_o (result (rangeProviders' l fr) w);
       f_msgs :=
         f_msgs (result (rangeProviders' l fr) w)
         ++ (result (validateProvider' p
                       (f_providerIDs (result (rangeProviders' l fr) w))) w).1;
       f_providerIDs :=
         {[ ID p ]} ∪ f_providerIDs (result (rangeProviders' l fr) w) |}.
Proof. by rewrite rangeProviders_app, rangeProviders_cons. Qed.

Lemma rangeProviders_registry (l : list Provider) (fr : Frame) (w : World) :
  f_providerIDs (result (rangeProviders' l fr) w)
  = list_to_set (ID <$> l) ∪ f_providerIDs fr.
Proof. by rewrite rangeProviders_result. Qed.

Lemma validateProviders_emptyID_count (o : Options) (w : World) :
  (∀ ac, emptyIDMsg ∉ result (validateAuthenticationConfig ac) w) ->
  occurrences emptyIDMsg (result (validateProviders' o) w)
  = length (filter (fun p => ID p = "") (Providers o)).
Proof.
  intros Hauth.
  rewrite (validateProviders_count _ _ emptyIDMsg
             (fun p => if decide (ID p = "") then 1 else 0)).
  - apply sum_indicator_filter.
  - discriminate.
  - discriminate.
  - intros p ids. rewrite validateProvider_result. simpl.
    rewrite !occurrences_app.
    rewrite (occurrences_absent _ _ (Hauth (AuthenticationConfig p))).
    rewrite (occurrences_absent _ (typeMsgs _ _ _)).
    2:{ intros H%typeMsgs_shape. by apply typeMsgShape_not_emptyID in H. }
    unfold structuralMsgs. rewrite !occurrences_app.
    rewrite (occurrences_absent _ (if bool_decide _ then _ else _)).
    2:{ case_bool_decide as Hin; [|apply not_elem_of_nil].
        intros H%list_elem_of_singleton.
        by apply emptyIDMsg_not_duplicate in H. }
    rewrite (occurrences_absent _ (if String.eqb (ClientID p) "" then _ else _)).
    2:{ destruct (String.eqb (ClientID p) ""); [|apply not_elem_of_nil].
        intros H%list_elem_of_singleton. discriminate H. }
    destruct (String.eqb_spec (ID p) ""); destruct (decide (ID p = ""));
      try contradiction; reflexivity.
Qed.

Lemma validateProviders_duplicate_count (o : Options) (w : World)
  (s : string) :
  (∀ ac, duplicateIDMsg s ∉ result (validateAuthenticationConfig ac) w) ->
  occurrences (duplicateIDMsg s) (result (validateProviders' o) w)
  = length (filter (fun p => ID p = s) (Providers o)) - 1.
Proof.
  intros Hauth. unfold validateProviders, validateProviders_frame.
  rewrite result_bind, result_ret, rangeProviders_duplicate_count
    by exact Hauth.
  simpl. rewrite (bool_decide_eq_false_2 (s ∈ ∅)) by apply not_elem_of_empty.
  rewrite (occurrences_absent _ _); [lia|].
  destruct (Nat.eqb (length (Providers o)) 0),
           (SkipProviderButton o && Nat.ltb 1 (length (Providers o)));
    simpl; intros H;
    repeat (apply elem_of_cons in H as [H | H]);
    try (by apply elem_of_nil in H);
    symmetry in H;
    first [ by apply noProviderMsg_not_duplicate in H
          | by apply skipButtonMsg_not_duplicate in H ].
Qed.

Lemma validateProvider_empty_id (p : Provider) (ids : gset string)
  (w : World) :
  ID p = "" ->
  result (validateProvider' p ids) w
  = (emptyIDMsg
       :: (if bool_decide ("" ∈ ids) then [duplicateIDMsg ""] else [])
       ++ (if String.eqb (ClientID p) "" then [clientIDMsg] else [])
       ++ result (validateAuthenticationConfig (AuthenticationConfig p)) w
       ++ typeMsgs PrivateKeyJWT p w,
     {[ "" ]} ∪ ids).
Proof.
  intros Hid. rewrite validateProvider_result. unfold structuralMsgs.
  rewrite Hid. simpl. by rewrite <- !app_assoc.
Qed.

Lemma validateProvider_empty_id_duplicate (p : Provider) (ids : gset string)
  (w : World) :
  ID p = "" ->
  duplicateIDMsg ""
    ∉ result (validateAuthenticationConfig (AuthenticationConfig p)) w ->
  duplicateIDMsg "" ∈ (result (validateProvider' p ids) w).1 ↔ "" ∈ ids.
Proof.
  intros Hid Hauth. split.
  - intros H.
    apply validateProvider_msg_cases
      in H as [H | [[_ H] | [H | [H | H]]]].
    + symmetry in H. by apply emptyIDMsg_not_duplicate in H.
    + by rewrite Hid in H.
    + symmetry in H. by apply clientIDMsg_not_duplicate in H.
    + contradiction.
    + by apply (typeMsgShape_not_duplicate _ "") in H.
  - intros Hin. rewrite (validateProvider_empty_id p ids w Hid). simpl.
    rewrite (bool_decide_eq_true_2 _ Hin).
    apply list_elem_of_further, list_elem_of_here.
Qed.

(** C10: in the result of [validateProviders] the empty-id message occurs
    once for every provider with the empty id and the duplicate-id message
    for the empty id once less than that. [validateProvider] returns, for a
    provider with the empty id, the empty-id message first, the
    duplicate-id message for the empty id next exactly when the registry
    holds the empty id, and the registry with the empty id inserted. When
    the loop reaches such a provider its registry holds the empty id
    exactly when an earlier provider has the empty id, so the first one
    gets no duplicate-id message and every later one does; after the
    iteration, and at the end of the pass, the registry holds the empty
    id. (The authentication-method validator, whose body is elsewhere, is
    taken not to emit these two messages.) *)
Theorem C10_empty_ids (o : Options) (w : World) :
  (∀ ac, emptyIDMsg ∉ result (validateAuthenticationConfig ac) w) ->
  (∀ ac, duplicateIDMsg "" ∉ result (validateAuthenticationConfig ac) w) ->
  occurrences emptyIDMsg (result (validateProviders' o) w)
  = length (filter (fun p => ID p = "") (Providers o))
  ∧ occurrences (duplicateIDMsg "") (result (validateProviders' o) w)
    = length (filter (fun p => ID p = "") (Providers o)) - 1
  ∧ (∀ p ids, ID p = "" ->
       result (validateProvider' p ids) w
       = (emptyIDMsg
            :: (if bool_decide ("" ∈ ids) then [duplicateIDMsg ""] else [])
            ++ (if String.eqb (ClientID p) "" then [clientIDMsg] else [])
            ++ result (validateAuthenticationConfig (AuthenticationConfig p)) w
            ++ typeMsgs PrivateKeyJWT p w,
          {[ "" ]} ∪ ids))
  ∧ (∀ i p fr, Providers o !! i = Some p -> ID p = "" ->
       f_providerIDs fr = ∅ ->
       let before := result (rangeProviders' (take i (Providers o)) fr) w in
       let after := result (rangeProviders' (take (S i) (Providers o)) fr) w in
       let msgs := (result (validateProvider' p (f_providerIDs before)) w).1 in
       f_msgs after = f_msgs before ++ msgs
       ∧ ("" ∈ f_providerIDs before
          ↔ ∃ j q, j < i ∧ Providers o !! j = Some q ∧ ID q = "")
       ∧ (duplicateIDMsg "" ∈ msgs
          ↔ ∃ j q, j < i ∧ Providers o !! j = Some q ∧ ID q = "")
       ∧ "" ∈ f_providerIDs after)
  ∧ (∀ p, p ∈ Providers o -> ID p = "" ->
       "" ∈ f_providerIDs (result (validateProviders_frame' o) w)).
Proof.
  intros HauthE HauthD.
  split; [by apply validateProviders_emptyID_count|].
  split; [by apply validateProviders_duplicate_count|].
  split; [intros p ids; apply validateProvider_empty_id|].
  split.
  - intros i p fr Hp Hid Hfr. simpl.
    assert (f_providerIDs
              (result (rangeProviders' (take i (Providers o)) fr) w)
            = registryAt (Providers o) i) as Hreg.
    { rewrite rangeProviders_registry, Hfr. unfold registryAt.
      by rewrite (right_id_L ∅ (∪)). }
    rewrite (take_S_r _ _ _ Hp), rangeProviders_snoc. simpl.
    rewrite Hreg. split; [reflexivity|].
    split; [apply registryAt_elem|]. split.
    + rewrite <- registryAt_elem.
      by apply validateProvider_empty_id_duplicate.
    + rewrite Hid. apply elem_of_union. left. by apply elem_of_singleton.
  - intros p Hp Hid. rewrite validateProviders_frame_result. simpl.
    apply elem_of_list_to_set, list_elem_of_fmap. by exists p.
Qed.

(** X13: appending a provider to a non-empty list, with the provider
    button not skipped, keeps the result of [validateProviders] for the
    list and adds the messages [validateProvider] returns for the new
    provider against the registry the pass over the list ends with; the
    duplicate-id message for its id is among them exactly when a provider
    of the list has that id, and the registry the longer pass ends with
    has the new id inserted. *)
Theorem X13_appended_provider (l : list Provider) (p : Provider) (w : World) :
  l ≠ [] ->
  let o1 := {| Providers := l; SkipProviderButton := false |} in
  let o2 := {| Providers := l ++ [p]; SkipProviderButton := false |} in
  let ids := f_providerIDs (result (validateProviders_frame' o1) w) in
  result (validateProviders' o2) w
  = result (validateProviders' o1) w
    ++ (result (validateProvider' p ids) w).1
  ∧ ((∀ ac, duplicateIDMsg (ID p)
            ∉ result (validateAuthenticationConfig ac) w) ->
     duplicateIDMsg (ID p) ∈ (result (validateProvider' p ids) w).1
     ↔ ∃ q, q ∈ l ∧ ID q = ID p)
  ∧ f_providerIDs (result (validateProviders_frame' o2) w) = {[ ID p ]} ∪ ids.
Proof.
  intros Hne. simpl.
  assert (f_providerIDs
            (result (validateProviders_frame'
                       {| Providers := l; SkipProviderButton := false |}) w)
          = list_to_set (ID <$> l)) as Hids.
  { by rewrite validateProviders_frame_result. }
  rewrite Hids. split; [|split].
  - rewrite !validateProviders_result.
    rewrite (providerMsgs_app PrivateKeyJWT validateAuthenticationConfig
               l [p] false false w).
    rewrite concat_app, app_assoc. f_equal.
    + f_equal. unfold listMsgs. simpl. rewrite length_app.
      destruct l as [|q l']; [done | reflexivity].
    + simpl. rewrite registryAt_0, (right_id_L ∅ (∪)). apply app_nil_r.
  - intros Hauth. split.
    + intros H.
      apply validateProvider_msg_cases
        in H as [H | [[_ H] | [H | [H | H]]]].
      * symmetry in H. by apply emptyIDMsg_not_duplicate in H.
      * apply elem_of_list_to_set, list_elem_of_fmap in H as (q & Hq & Hin).
        by exists q.
      * symmetry in H. by apply clientIDMsg_not_duplicate in H.
      * by apply (Hauth (AuthenticationConfig p)) in H.
      * by apply (typeMsgShape_not_duplicate _ (ID p)) in H.
    + intros (q & Hq & Hid). rewrite validateProvider_result. simpl.
      apply elem_of_app. left. unfold structuralMsgs.
      apply elem_of_app. right. apply elem_of_app. left.
      rewrite bool_decide_eq_true_2; [apply list_elem_of_here|].
      apply elem_of_list_to_set, list_elem_of_fmap. by exists q.
  - rewrite validateProviders_frame_result. simpl.
    rewrite fmap_app, list_to_set_app_L. simpl.
    apply set_eq. intros x.
    rewrite !elem_of_union, elem_of_singleton, elem_of_empty. tauto.
Qed.

End EmptyIDs.

Lemma C10_witness :
  occurrences emptyIDMsg
    (result (validateProviders "private_key_jwt" quietAuth twoEmptyIDs) bareWorld)
  = 2
  ∧ occurrences (duplicateIDMsg "")
      (result (validateProviders "private_key_jwt" quietAuth twoEmptyIDs)
         bareWorld)
    = 1.
Proof.
  destruct (C10_empty_ids "private_key_jwt" quietAuth twoEmptyIDs bareWorld)
    as (HE & HD & _).
  - intros ac. apply not_elem_of_nil.
  - intros ac. apply not_elem_of_nil.
  - split; [exact HE | exact HD].
Defined.

Lemma X13_witness :
  result (validateProviders "private_key_jwt" quietAuth
            {| Providers := [oidcProvider "a" "client_secret"]
                            ++ [oidcProvider "a" "client_secret"];
               SkipProviderButton := false |}) bareWorld
  = result (validateProviders "private_key_jwt" quietAuth
              {| Providers := [oidcProvider "a" "client_secret"];
                 SkipProviderButton := false |}) bareWorld
    ++ (result (validateProvider "private_key_jwt" quietAuth
                  (oidcProvider "a" "client_secret")
                  (f_providerIDs
                     (result (validateProviders_frame "private_key_jwt"
                                quietAuth
                                {| Providers := [oidcProvider "a" "client_secret"];
                                   SkipProviderButton := false |}) bareWorld)))
          bareWorld).1.
Proof.
  apply (X13_appended_provider "private_key_jwt" quietAuth
           [oidcProvider "a" "client_secret"]
           (oidcProvider "a" "client_secret") bareWorld).
  discriminate.
Defined.
